(** * BRAD planner / gene-database dispatcher: a shallow embedding

    The development follows four source files of the repository:
    - [BRAD/planner.py]            ([planner], [response2processes]);
    - [BRAD/geneDatabaseCaller.py] ([geneDBRetriever], [parse_llm_response],
      [getTablesFormatting]);
    - [BRAD/rag.py]                ([getPreviousInput], [getInputDocumentJSONs],
      [getDocumentSimilarity]);
    - [app.py]                     ([allowed_file],
      [parse_log_for_process_display], [upload_file], [remove_open_sessions]).

    Python values are modelled as follows.
    - A [str] is a list of Unicode code points ([N]).
    - A [dict] used as a map ([chatstatus['process']]) is a [gmap].
    - A raised exception is a constructor of an explicit outcome type; the
      session object that every stage mutates in place is threaded through
      a state-and-exception monad. *)

From Stdlib Require Import NArith ZArith QArith Ascii String List Sorted Lia Bool.
From stdpp Require Import gmap strings list sorting.
Import ListNotations.

Local Open Scope N_scope.
Local Open Scope list_scope.

(** ** Python strings *)

Module Py.

(** A character is a Unicode code point and a [str] a sequence of them
    (abbreviations, so that list lemmas apply as they are). *)
Abbreviation char := N (only parsing).
Abbreviation str := (list N) (only parsing).

(** A string literal of the source, as a sequence of code points. *)
Definition lit (s : string) : str := map N_of_ascii (list_ascii_of_string s).

Definition newline : char := 10.
Definition comma : char := 44.
Definition squote : char := 39.
Definition dquote : char := 34.

(** [str.isspace] on one code point: the characters [str.strip()] removes. *)
Definition isspace (c : char) : bool :=
  ((9 <=? c) && (c <=? 13)) || ((28 <=? c) && (c <=? 32))
  || (c =? 133) || (c =? 160) || (c =? 5760)
  || ((8192 <=? c) && (c <=? 8202))
  || (c =? 8232) || (c =? 8233) || (c =? 8239) || (c =? 8287) || (c =? 12288).

(** [s.startswith(p)] *)
Fixpoint startswith (s p : str) {struct p} : bool :=
  match p, s with
  | [], _ => true
  | _ :: _, [] => false
  | a :: p', b :: s' => (a =? b) && startswith s' p'
  end.

(** [sub in s] *)
Fixpoint contains (sub s : str) : bool :=
  startswith s sub ||
  match s with
  | [] => false
  | _ :: s' => contains sub s'
  end.

(** [s.replace(old, new)] for a non-empty [old], which is what every call
    site passes.  Occurrences are taken leftmost first and do not overlap:
    [skip] counts the characters of the current occurrence still to be
    passed over. *)
Fixpoint replace_from (old new : str) (skip : nat) (s : str) : str :=
  match s with
  | [] => []
  | c :: s' =>
      match skip with
      | S k => replace_from old new k s'
      | O =>
          if startswith s old
          then new ++ replace_from old new (length old - 1) s'
          else c :: replace_from old new 0 s'
      end
  end.

Definition replace (s old new : str) : str := replace_from old new 0 s.

(** [s.split(sep)] for a non-empty [sep]; the result is never empty. *)
Fixpoint split_from (sep : str) (skip : nat) (s : str) : list str :=
  match s with
  | [] => [[]]
  | c :: s' =>
      match skip with
      | S k => split_from sep k s'
      | O =>
          if startswith s sep
          then [] :: split_from sep (length sep - 1) s'
          else match split_from sep 0 s' with
               | seg :: rest => (c :: seg) :: rest
               | [] => [[c]]
               end
      end
  end.

Definition split (s sep : str) : list str := split_from sep 0 s.

(** [s.count(sep)]: the number of non-overlapping occurrences. *)
Fixpoint count_from (sep : str) (skip : nat) (s : str) : nat :=
  match s with
  | [] => 0%nat
  | _ :: s' =>
      match skip with
      | S k => count_from sep k s'
      | O =>
          if startswith s sep
          then S (count_from sep (length sep - 1) s')
          else count_from sep 0 s'
      end
  end.

Definition count (s sep : str) : nat := count_from sep 0 s.

(** [sep.join(parts)] *)
Fixpoint join (sep : str) (parts : list str) : str :=
  match parts with
  | [] => []
  | [p] => p
  | p :: rest => p ++ sep ++ join sep rest
  end.

(** [s.lstrip()], [s.rstrip()], [s.strip()] *)
Fixpoint lstrip (s : str) : str :=
  match s with
  | [] => []
  | c :: s' => if isspace c then lstrip s' else s
  end.

Definition rstrip (s : str) : str := rev (lstrip (rev s)).

Definition strip (s : str) : str := rstrip (lstrip s).

(** A text made of whitespace only; a text in which [c] does not occur. *)
Definition blank (s : str) : Prop := Forall (fun c => isspace c = true) s.
Definition lacks (c : char) (s : str) : Prop := c ∉ s.

(** Exceptions.  [KeyboardInterrupt] and [SystemExit] derive from
    [BaseException] only; every other class here derives from [Exception]. *)
Inductive exc_class :=
  | IndexError | KeyError | AttributeError | TypeError | ValueError
  | RuntimeError | ConnectionError
  | KeyboardInterrupt | SystemExit.

Record exc := mkExc { exc_cls : exc_class; exc_text : str }.

(** [isinstance(e, Exception)] *)
Definition is_Exception (e : exc) : bool :=
  match exc_cls e with
  | KeyboardInterrupt | SystemExit => false
  | _ => true
  end.

(** The result of evaluating an expression that touches no shared state. *)
Inductive result (A : Type) :=
  | Ok (a : A)
  | Raise (e : exc).
Arguments Ok {A} a.
Arguments Raise {A} e.

Definition rbind {A B} (r : result A) (k : A -> result B) : result B :=
  match r with
  | Ok a => k a
  | Raise e => Raise e
  end.

Definition index_error : exc :=
  mkExc IndexError (lit "list index out of range").

(** [l[i]] for [i >= 0] on a list *)
Definition getitem {A} (l : list A) (i : nat) : result A :=
  match nth_error l i with
  | Some a => Ok a
  | None => Raise index_error
  end.

(** [l[:n]] on a list, for any integer [n] *)
Definition slice_to {A} (l : list A) (n : Z) : list A :=
  if (0 <=? n)%Z then take (Z.to_nat n) l
  else take (length l - Z.to_nat (- n)) l.

End Py.

(** ** The regular expression of [planner.py] *)

Module Re.
Import Py.

(** The lazy group followed by a newline, [(.*?)\n], tried at the head of
    [s]: [.] matches every character but the newline, so the group is the
    text up to the first newline, and there is no match without one. *)
Fixpoint until_newline (s : str) : option str :=
  match s with
  | [] => None
  | c :: s' =>
      if c =? newline then Some []
      else match until_newline s' with
           | Some g => Some (c :: g)
           | None => None
           end
  end.

Definition prompt_marker : str := lit "Prompt: ".

(** One attempt of [Prompt: (.*?)\n] at the head of [s]; the group. *)
Definition match_here (s : str) : option str :=
  if startswith s prompt_marker
  then until_newline (drop (length prompt_marker) s)
  else None.

(** [re.findall(r'Prompt: (.*?)\n', s)]: the groups of the successive
    non-overlapping matches, scanning from the left.  [skip] counts the
    characters of the last match still to be passed over. *)
Fixpoint findall_from (skip : nat) (s : str) : list str :=
  match s with
  | [] => []
  | _ :: s' =>
      match skip with
      | S k => findall_from k s'
      | O =>
          match match_here s with
          | Some g => g :: findall_from (length prompt_marker + length g) s'
          | None => findall_from 0 s'
          end
      end
  end.

Definition findall_prompt (s : str) : list str := findall_from 0 s.

End Re.

(** ** The session object and the effects of one turn *)

Module Session.
Import Py.

(** One planned unit of work: the dict [response2processes] appends. *)
Record Stage := mkStage {
  order : nat;
  module : str;
  prompt : str;
  description : str
}.

(** The dict [parse_llm_response] returns (its three keys). *)
Record ParsedData := mkParsed {
  database : str;
  genes : list str;
  load : str
}.

(** What the OpenAI callback and the clock report for one oracle call. *)
Record Accounting := mkAccounting {
  elapsed : Q;
  total_tokens : N;
  prompt_tokens : N;
  completion_tokens : N;
  total_cost : Q
}.

(** The dict [responseDetails] of [geneDBRetriever]. *)
Record ResponseDetails := mkDetails {
  content : str;
  time : Q;
  call_back : Accounting
}.

(** Modelled from the spec: [log.llmCallLog] is not among the sources; it
    builds the structured entry describing one oracle call (prompt, raw
    output, parsed output, purpose label) from its keyword arguments. *)
Record LlmCallLog := llmCallLog {
  log_llm : str;
  log_prompt : str;
  log_input : str;
  log_output : ResponseDetails;
  log_parsedOutput : ParsedData;
  log_purpose : str
}.

(** The two route handlers, as the function objects the dispatch table
    [database_functions] holds. *)
Inductive callable := queryEnrichr_fn | geneOntology_fn.

(** Elements of the lists stored under [chatstatus['process']]. *)
Inductive Entry :=
  | ECall (c : LlmCallLog)
  | EStage (s : Stage)
  | EText (s : str).

(** Values stored under the keys of [chatstatus['process']]. *)
Inductive PVal :=
  | PStr (s : str)
  | PList (l : list Entry)
  | PFunc (f : callable).

Record Config := mkConfig {
  debug : bool;
  max_search_terms : Z       (* config['DATABASE']['max_search_terms'] *)
}.

(** [chatstatus]: the keys the two modules read or write.  [tables] maps a
    table name to its column names, in insertion order. *)
Record ChatStatus := mkChatStatus {
  cs_prompt : str;
  cs_llm : str;
  cs_memory : list str;
  cs_config : Config;
  cs_tables : list (str * list str);
  cs_databases : gmap str str;
  cs_process : gmap str PVal;
  cs_planned : list Stage;
  cs_output : str
}.

Definition set_process (p : gmap str PVal) (cs : ChatStatus) : ChatStatus :=
  mkChatStatus (cs_prompt cs) (cs_llm cs) (cs_memory cs) (cs_config cs)
    (cs_tables cs) (cs_databases cs) p (cs_planned cs) (cs_output cs).

Definition set_planned (l : list Stage) (cs : ChatStatus) : ChatStatus :=
  mkChatStatus (cs_prompt cs) (cs_llm cs) (cs_memory cs) (cs_config cs)
    (cs_tables cs) (cs_databases cs) (cs_process cs) l (cs_output cs).

(** What [log.debugLog] is handed: a text, the parsed dict or a list. *)
Inductive DebugPayload :=
  | DText (s : str)
  | DParsed (p : ParsedData)
  | DList (l : list str).

(** Modelled from the spec: the log module is not among the sources.  The
    log sink is an append-only consumer; it receives error messages and,
    when the debug flag is set, plain-text debug dumps. *)
Inductive LogRecord :=
  | DebugDump (payload : DebugPayload)
  | ErrorRecord (message : str) (info : str).

(** Everything a turn can observe or change: the session object that all
    stages share by reference, the log sink and the standard output. *)
Record World := mkWorld {
  session : ChatStatus;
  sink : list LogRecord;
  stdout : list str
}.

Definition with_session (f : ChatStatus -> ChatStatus) (w : World) : World :=
  mkWorld (f (session w)) (sink w) (stdout w).

Definition log_to_sink (r : LogRecord) (w : World) : World :=
  mkWorld (session w) (sink w ++ [r]) (stdout w).

(** A statement either completes with a value or raises; both leave a
    world behind. *)
Inductive Outcome (A : Type) :=
  | Done (a : A) (w : World)
  | Fail (e : exc) (w : World).
Arguments Done {A} a w.
Arguments Fail {A} e w.

Definition M (A : Type) : Type := World -> Outcome A.

Definition ret {A} (a : A) : M A := fun w => Done a w.

Definition bind {A B} (c : M A) (k : A -> M B) : M B :=
  fun w => match c w with
           | Done a w' => k a w'
           | Fail e w' => Fail e w'
           end.

Definition raise {A} (e : exc) : M A := fun w => Fail e w.

Definition lift {A} (r : result A) : M A :=
  match r with
  | Ok a => ret a
  | Raise e => raise e
  end.

Definition get_session : M ChatStatus := fun w => Done (session w) w.

Definition modify (f : World -> World) : M unit := fun w => Done tt (f w).

(** [try: body / except Exception as e: handler e] *)
Definition try_except {A} (body : M A) (handler : exc -> M A) : M A :=
  fun w => match body w with
           | Done a w' => Done a w'
           | Fail e w' => if is_Exception e then handler e w' else Fail e w'
           end.

(** The value or exception of an outcome, and the world it leaves. *)
Definition value_of {A} (o : Outcome A) : result A :=
  match o with
  | Done a _ => Ok a
  | Fail e _ => Raise e
  end.

Definition world_of {A} (o : Outcome A) : World :=
  match o with
  | Done _ w => w
  | Fail _ w => w
  end.

Declare Scope turn_scope.
Delimit Scope turn_scope with turn.
Notation "'let!' x ':=' c 'in' k" := (bind c (fun x => k))
  (at level 10, x name, c at level 100, k at level 200) : turn_scope.
Notation "c '>>' k" := (bind c (fun _ => k))
  (at level 65, right associativity) : turn_scope.

(** Modelled from the spec: [log.debugLog(output, chatstatus=chatstatus)]
    sends a plain-text dump to the log sink when the debug flag is set. *)
Definition debugLog (output : DebugPayload) : M unit :=
  fun w =>
    if debug (cs_config (session w))
    then Done tt (log_to_sink (DebugDump output) w)
    else Done tt w.

(** Modelled from the spec: [log.errorLog(message, info=..., chatstatus=...)]
    records the message in the log sink as an error. *)
Definition errorLog (message info : str) : M unit :=
  modify (log_to_sink (ErrorRecord message info)).

(** [chatstatus['process'][key].append(e)] *)
Definition process_append (key : str) (e : Entry) : M unit :=
  fun w =>
    match cs_process (session w) !! key with
    | None => Fail (mkExc KeyError (lit "'" ++ key ++ lit "'")) w
    | Some (PList l) =>
        Done tt (with_session
                   (set_process (<[key := PList (l ++ [e])]> (cs_process (session w)))) w)
    | Some _ =>
        Fail (mkExc AttributeError (lit "object has no attribute 'append'")) w
    end.

(** [chatstatus['process'][key] = v] *)
Definition process_setitem (key : str) (v : PVal) : M unit :=
  modify (with_session (fun cs => set_process (<[key := v]> (cs_process cs)) cs)).

(** Every entry recorded under a key of [process] is still recorded: a
    list keeps its entries, in order, at its front; any other value stays. *)
Definition entries_kept (before after : gmap str PVal) : Prop :=
  forall key v, before !! key = Some v ->
    match v with
    | PList l => exists l', after !! key = Some (PList (l ++ l'))
    | _ => after !! key = Some v
    end.

(** The append-only reading of one operation of a turn. *)
Definition append_only {A} (op : M A) : Prop :=
  forall w a w', op w = Done a w' ->
    entries_kept (cs_process (session w)) (cs_process (session w')).

(** Which conversational memory an oracle call runs under. *)
Inductive Memory :=
  | FreshMemory                 (* ConversationBufferMemory(ai_prefix="BRAD") *)
  | SessionMemory.              (* chatstatus['memory'] *)

(** The collaborators that are invoked through narrow interfaces and whose
    code is not among the sources: the prompt templates, the oracle (with
    the accounting of the call), the similarity measure of [BRAD.utils],
    the file loader and the two route handlers.  [str_of_list] is Python's
    [str()] of a list. *)
Class Collaborators := {
  geneDatabaseCallerTemplate_format : str -> str;
  plannerTemplate : str;
  str_of_list : list str -> str;
  predict : str -> Memory -> str -> M (str * Accounting);
  word_similarity : str -> str -> Q;
  loadFromFile : M (list str);
  queryEnrichr : list str -> M unit;
  geneOntology : list str -> M unit
}.

(** Calling a stored function object with [(chatstatus, geneList)]. *)
Definition call `{Collaborators} (f : callable) (geneList : list str) : M unit :=
  match f with
  | queryEnrichr_fn => queryEnrichr geneList
  | geneOntology_fn => geneOntology geneList
  end.

End Session.

(** ** [BRAD/planner.py]: the Stage Decomposer *)

Module Planner.
Import Py Re Session.

Definition modules : list str :=
  [lit "RAG"; lit "SCRAPE"; lit "DATABASE"; lit "CODE"; lit "WRITE"].

Definition step_marker : str := lit "**Step ".

(** [[module for module in modules if module in stage]] *)
Definition found_modules (stage : str) : list str :=
  filter (fun m => contains m stage = true) modules.

(** The inner [for module in found_modules] loop: one record per module,
    each evaluating [prompt[0]]. *)
Fixpoint append_stages (stageNum : nat) (stage : str) (prompt : list str)
    (found : list str) (processes : list Stage) : result (list Stage) :=
  match found with
  | [] => Ok processes
  | m :: found' =>
      rbind (getitem prompt 0) (fun p0 =>
        append_stages stageNum stage prompt found'
          (processes ++
             [mkStage stageNum m (lit "/force " ++ m ++ lit " " ++ p0) stage]))
  end.

(** The outer [for i, stage in enumerate(stageStrings)] loop. *)
Fixpoint stages_loop (i : nat) (stageStrings : list str)
    (processes : list Stage) : result (list Stage) :=
  match stageStrings with
  | [] => Ok processes
  | stage :: rest =>
      let stageNum := i in
      let found := found_modules stage in
      if (length found =? 0)%nat
      then stages_loop (S i) rest processes
      else
        let prompt := findall_prompt stage in
        rbind (append_stages stageNum stage prompt found processes)
              (stages_loop (S i) rest)
  end.

Definition response2processes (response : str) : result (list Stage) :=
  let stageStrings := split response step_marker in
  stages_loop 0 stageStrings [].

(** [chatstatus['databases'][key]] *)
Definition databases_getitem (key : str) : M str :=
  fun w =>
    match cs_databases (session w) !! key with
    | Some h => Done h w
    | None => Fail (mkExc KeyError (lit "'" ++ key ++ lit "'")) w
    end.

(** [print(response) if chatstatus['config']['debug'] else None] *)
Definition print_if_debug (response : str) : M unit :=
  fun w =>
    if debug (cs_config (session w))
    then Done tt (mkWorld (session w) (sink w) (stdout w ++ [response]))
    else Done tt w.

Local Open Scope turn_scope.

Definition planner `{Collaborators} : M ChatStatus :=
  let! chatstatus := get_session in
  let prompt := cs_prompt chatstatus in
  let! vectordb := databases_getitem (lit "RAG") in
  let template := plannerTemplate in
  let! reply := predict template SessionMemory prompt in
  let response := fst reply in
  let response := response ++ [newline; newline] in
  print_if_debug response >>
  let! processes := lift (response2processes response) in
  modify (with_session (set_planned processes)) >>
  modify (with_session
            (set_process (<[lit "type" := PStr (lit "PLANNER")]>
                            {[lit "stages" := PList (map EStage processes)]}))) >>
  get_session.

(** *** Vocabulary for the statements about the decomposer *)

(** The segment holds a ["Prompt: "] marker that a newline follows, later
    in the same segment. *)
Definition prompt_line (seg : str) : Prop :=
  exists a b c, seg = a ++ prompt_marker ++ b ++ newline :: c.

(** The number of module mentions: one per segment and module named in it. *)
Definition mentions (segs : list str) : nat :=
  sum_list (map (fun seg => length (found_modules seg)) segs).

(** The records one segment gives rise to once its prompt text is known. *)
Definition stage_records (i : nat) (seg : str) : list Stage :=
  let p0 := default [] (head (findall_prompt seg)) in
  map (fun m => mkStage i m (lit "/force " ++ m ++ lit " " ++ p0) seg)
      (found_modules seg).

Fixpoint emitted (i : nat) (segs : list str) : list Stage :=
  match segs with
  | [] => []
  | seg :: rest => stage_records i seg ++ emitted (S i) rest
  end.

(** What is said of a response with [k] markers and [m] mentions. *)
Definition decomposed (response : str) (ps : list Stage) : Prop :=
  let segs := split response step_marker in
  let k := count response step_marker in
  length ps = mentions segs
  /\ Forall (fun s => (order s <= k)%nat) ps
  /\ StronglySorted le (map order ps)
  /\ (forall seg, head segs = Some seg -> found_modules seg = [] ->
        Forall (fun s => order s <> 0%nat) ps).

(** The count property read with the bare marker: every segment that names
    a module contains the text ["Prompt: "]. *)
Definition count_claim_bare_marker (response : str) : Prop :=
  (forall seg, seg ∈ split response step_marker ->
     found_modules seg <> [] -> contains prompt_marker seg = true) ->
  exists ps, response2processes response = Ok ps /\ decomposed response ps.

(** The scenario of the spec, and a response whose first segment ends right
    after its prompt text. *)
Definition two_step_plan : str :=
  lit "**Step 0** ... RAG ... Prompt: find genes" ++ [newline; newline]
  ++ lit "**Step 1** ... WRITE ... Prompt: summarize" ++ [newline; newline].

(** The scenario read with the step numbers as [order] values. *)
Definition two_step_claim : Prop :=
  exists s0 s1,
    response2processes two_step_plan = Ok [s0; s1]
    /\ order s0 = 0%nat /\ module s0 = lit "RAG"
    /\ prompt s0 = lit "/force RAG find genes"
    /\ order s1 = 1%nat /\ module s1 = lit "WRITE"
    /\ prompt s1 = lit "/force WRITE summarize".

Definition plan_without_line_end : str :=
  lit "RAG Prompt: x**Step 1** RAG Prompt: y" ++ [newline; newline].

Definition plan_without_prompt : str :=
  lit "**Step 1** use RAG to look up the genes" ++ [newline; newline].

End Planner.

(** ** [BRAD/geneDatabaseCaller.py]: the Dispatcher *)

Module GeneDatabaseCaller.
Import Py Session.
Local Open Scope turn_scope.

(** Lines 161-171: the three indexed lines and what is kept of each. *)
Definition parse_lines (lines : list str) : result ParsedData :=
  rbind (getitem lines 0) (fun line0 =>
    let database_line := strip (replace line0 (lit "database:") []) in
    rbind (getitem lines 1) (fun line1 =>
      let genes_line := strip (replace line1 (lit "genes:") []) in
      let genes := split genes_line [comma] in
      rbind (getitem lines 2) (fun line2 =>
        let code_line := strip (replace line2 (lit "load:") []) in
        rbind (getitem (split code_line [comma]) 0) (fun load =>
          Ok (mkParsed database_line genes load))))).

Definition parse_llm_response (response : str) : M ParsedData :=
  let response := replace response [squote] [] in
  let response := replace response [dquote] [] in
  debugLog (DText response) >>
  let lines := split (strip response) [newline] in
  lift (parse_lines lines).

(** *** Vocabulary for the statements about the parser *)

(** The two quote deletions that open [parse_llm_response]. *)
Definition dequote (response : str) : str :=
  replace (replace response [squote] []) [dquote] [].

(** A well-formed 3-line response.  Once the quotes are gone the text is,
    between paddings of whitespace, the three labelled lines in order; [d],
    [g] and [l] are the line contents after their labels.  No content runs
    over a line end, and no content holds its own label again. *)
Record well_formed (response lead d g l trail : str) : Prop := mk_well_formed {
  wf_shape :
    dequote response
    = lead ++ lit "database:" ++ d ++ newline ::
      lit "genes:" ++ g ++ newline ::
      lit "load:" ++ l ++ trail;
  wf_lead : blank lead;
  wf_trail : blank trail;
  wf_d_line : lacks newline d;
  wf_g_line : lacks newline g;
  wf_l_line : lacks newline l;
  wf_d_label : contains (lit "database:") d = false;
  wf_g_label : contains (lit "genes:") g = false;
  wf_l_label : contains (lit "load:") l = false
}.

(** The text the round trip parses again. *)
Definition rejoin (p : ParsedData) : str :=
  lit "database: " ++ database p ++ newline ::
  lit "genes: " ++ join [comma] (genes p) ++ newline ::
  lit "load: " ++ load p.

(** Two parsed structures that differ by surrounding whitespace at most. *)
Definition same_modulo_whitespace (p q : ParsedData) : Prop :=
  strip (database p) = strip (database q)
  /\ map strip (genes p) = map strip (genes q)
  /\ strip (load p) = strip (load q).

(** The response of the spec's scenario, and a response whose database
    content only shows its label once the label inside it is deleted. *)
Definition enrichr_reply : str :=
  lit "database: ENRICHR" ++ newline ::
  lit "genes: TP53,BRCA1,EGFR" ++ newline ::
  lit "load: False" ++ [newline].

Definition nested_label_reply : str :=
  lit "database: datadatabase:base: X" ++ newline ::
  lit "genes: TP53" ++ newline ::
  lit "load: False".


Section Dispatch.
Context `{Collaborators}.

Definition getTablesFormatting (tables : list (str * list str)) : str :=
  fold_left
    (fun tablesString (entry : str * list str) =>
       let tab := fst entry in
       let columns_list := snd entry in
       let truncated_columns := take 10 columns_list in
       let truncated_columns :=
         if (10 <? length columns_list)%nat
         then truncated_columns ++ [lit "..."]
         else truncated_columns in
       tablesString ++ tab ++ lit ".columns = "
         ++ str_of_list truncated_columns ++ [newline])
    tables [].

(** The dispatch table of [geneDBRetriever]. *)
Definition database_functions : gmap str callable :=
  <[lit "ENRICHR" := queryEnrichr_fn]> {[lit "GENEONTOLOGY" := geneOntology_fn]}.

Definition database_functions_getitem (key : str) : M callable :=
  match database_functions !! key with
  | Some f => ret f
  | None => raise (mkExc KeyError (lit "'" ++ key ++ lit "'"))
  end.

(** [a > b] on two scores.  A score is a finite float; it is modelled by
    the rational it denotes, which the comparison respects. *)
Definition score_gt (a b : Q) : bool := negb (Qle_bool a b).

(** Lines 109-114: the route name picked for the parsed [database] text. *)
Definition select_database (parsed_database : str) : str :=
  let similarity_to_enrichr := word_similarity parsed_database (lit "ENRICHR") in
  let similarity_to_geneontology :=
    word_similarity parsed_database (lit "GENEONTOLOGY") in
  if score_gt similarity_to_enrichr similarity_to_geneontology
  then lit "ENRICHR"
  else lit "GENEONTOLOGY".

(** Lines 125-126: the cut to [max_search_terms] entries. *)
Definition truncate_terms (geneList : list str) (max_search_terms : Z) : list str :=
  if (max_search_terms <? Z.of_nat (length geneList))%Z
  then slice_to geneList max_search_terms
  else geneList.

(** Lines 55-129 of [geneDBRetriever]: everything up to the [try]; the
    value is the handler picked and the list it will be called with. *)
Definition route_and_terms : M (callable * list str) :=
  let! chatstatus := get_session in
  let query := cs_prompt chatstatus in
  let llm := cs_llm chatstatus in
  let tablesInfo := getTablesFormatting (cs_tables chatstatus) in
  let filled_template := geneDatabaseCallerTemplate_format tablesInfo in
  let PROMPT := filled_template in
  let! reply := predict PROMPT FreshMemory query in
  let chainResponse := fst reply in
  let responseDetails :=
    mkDetails chainResponse (elapsed (snd reply)) (snd reply) in
  debugLog (DText chainResponse) >>
  let! response := parse_llm_response chainResponse in
  process_append (lit "steps")
    (ECall (llmCallLog llm PROMPT query responseDetails response
              (lit "Select database"))) >>
  debugLog (DParsed response) >>
  let database := select_database (database response) in
  let! dbCaller := database_functions_getitem database in
  process_setitem (lit "database-function") (PFunc dbCaller) >>
  let! geneList :=
    (if decide (load response = lit "True")
     then loadFromFile
     else ret (genes response)) in
  let! chatstatus := get_session in
  let geneList :=
    truncate_terms geneList (max_search_terms (cs_config chatstatus)) in
  debugLog (DList geneList) >>
  ret (dbCaller, geneList).

(** The prompt handed to the oracle in world [w] (lines 67-71). *)
Definition PROMPT_of (w : World) : str :=
  geneDatabaseCallerTemplate_format (getTablesFormatting (cs_tables (session w))).

Definition error_message (e : exc) : str :=
  lit "Error occurred while searching database: " ++ exc_text e.

(** Lines 131-136: the guarded call of the handler and the return. *)
Definition call_guarded (dbCaller : callable) (geneList : list str) : M ChatStatus :=
  try_except (call dbCaller geneList)
    (fun e =>
       let output := error_message e in
       errorLog output (lit "geneDatabaseCaller.geneDBRetriever")) >>
  get_session.

Definition geneDBRetriever : M ChatStatus :=
  let! picked := route_and_terms in
  call_guarded (fst picked) (snd picked).

End Dispatch.

End GeneDatabaseCaller.

(** ** A concrete turn: the scenarios of the spec *)

Module Scenario.
Import Py Session Planner GeneDatabaseCaller.

(** A similarity that tells equal texts from different ones. *)
Definition exact_match (a b : str) : Q :=
  if decide (a = b) then 1%Q else 0%Q.

Definition no_accounting : Accounting := mkAccounting 0 0 0 0 0.

Definition timeout : exc := mkExc ValueError (lit "timeout").

(** The oracle answers a routing question with [enrichr_reply] and a
    planning question with the two-step plan, to which the planner appends
    the closing blank lines itself; the Enrichr handler times out. *)
Definition collaborators : Collaborators := {|
  geneDatabaseCallerTemplate_format :=
    fun tables => lit "Tables: " ++ tables ++ lit " History: {history} Query: {input}";
  plannerTemplate := lit "History: {history} Query: {input} Plan:";
  str_of_list := fun l => lit "[" ++ join (lit ", ") l ++ lit "]";
  predict :=
    fun _ memory _ =>
      match memory with
      | FreshMemory => ret (enrichr_reply, no_accounting)
      | SessionMemory =>
          ret (lit "**Step 0** ... RAG ... Prompt: find genes"
                 ++ [newline; newline]
                 ++ lit "**Step 1** ... WRITE ... Prompt: summarize",
               no_accounting)
      end;
  word_similarity := exact_match;
  loadFromFile := ret [];
  queryEnrichr := fun _ => raise timeout;
  geneOntology := fun _ => ret tt
|}.

Definition earlier_step : Entry := EText (lit "an earlier step of the turn").

Definition chatstatus : ChatStatus :=
  mkChatStatus (lit "which pathways are these genes in?") (lit "llm") []
    (mkConfig false 2) []
    {[lit "RAG" := lit "vectordb"]}
    {[lit "steps" := PList [earlier_step]]}
    [] [].

Definition world : World := mkWorld chatstatus [] [].

(** A response in which the oracle quotes every value. *)
Definition quoted_reply : str :=
  lit "database: 'ENRICHR'" ++ newline ::
  lit "genes: " ++ [dquote] ++ lit "TP53" ++ [dquote; comma; dquote]
    ++ lit "BRCA1" ++ [dquote] ++ newline ::
  lit "load: 'False'".

(** An oracle that answers a routing question with a single line. *)
Definition one_line_reply : str := lit "database: ENRICHR".

Definition terse_collaborators : Collaborators := {|
  geneDatabaseCallerTemplate_format := geneDatabaseCallerTemplate_format (Collaborators := collaborators);
  plannerTemplate := plannerTemplate (Collaborators := collaborators);
  str_of_list := str_of_list (Collaborators := collaborators);
  predict := fun _ _ _ => ret (one_line_reply, no_accounting);
  word_similarity := exact_match;
  loadFromFile := ret [];
  queryEnrichr := fun _ => ret tt;
  geneOntology := fun _ => ret tt
|}.



(** The Enrichr handler leaves the process when it is called. *)
Definition exit_request : exc := mkExc SystemExit (lit "1").

Definition exiting_collaborators : Collaborators := {|
  geneDatabaseCallerTemplate_format := geneDatabaseCallerTemplate_format (Collaborators := collaborators);
  plannerTemplate := plannerTemplate (Collaborators := collaborators);
  str_of_list := str_of_list (Collaborators := collaborators);
  predict := predict (Collaborators := collaborators);
  word_similarity := exact_match;
  loadFromFile := ret [];
  queryEnrichr := fun _ => raise exit_request;
  geneOntology := fun _ => ret tt
|}.

End Scenario.


(** ** Further concrete turns *)

Module Cases.
Import Py Session Planner GeneDatabaseCaller.

(** A session that holds no retrieval database. *)
Definition chatstatus_without_rag : ChatStatus :=
  mkChatStatus (cs_prompt Scenario.chatstatus) (cs_llm Scenario.chatstatus) []
    (mkConfig false 2) [] ∅ {[lit "steps" := PList []]} [] [].

Definition world_without_rag : World := mkWorld chatstatus_without_rag [] [].

(** The session a planning call leaves behind. *)
Definition world_after_planner : World :=
  world_of (planner (H := Scenario.collaborators) Scenario.world).

(** An oracle whose plan names a module and gives no prompt. *)
Definition promptless_collaborators : Collaborators := {|
  geneDatabaseCallerTemplate_format :=
    geneDatabaseCallerTemplate_format (Collaborators := Scenario.collaborators);
  plannerTemplate := plannerTemplate (Collaborators := Scenario.collaborators);
  str_of_list := str_of_list (Collaborators := Scenario.collaborators);
  predict :=
    fun _ _ _ => ret (lit "**Step 1** use RAG to look up the genes",
                      Scenario.no_accounting);
  word_similarity := Scenario.exact_match;
  loadFromFile := ret [];
  queryEnrichr := fun _ => ret tt;
  geneOntology := fun _ => ret tt
|}.

(** The user interrupts the Enrichr handler. *)
Definition interrupt : exc := mkExc KeyboardInterrupt [].

Definition interrupted_collaborators : Collaborators := {|
  geneDatabaseCallerTemplate_format :=
    geneDatabaseCallerTemplate_format (Collaborators := Scenario.collaborators);
  plannerTemplate := plannerTemplate (Collaborators := Scenario.collaborators);
  str_of_list := str_of_list (Collaborators := Scenario.collaborators);
  predict := predict (Collaborators := Scenario.collaborators);
  word_similarity := Scenario.exact_match;
  loadFromFile := ret [];
  queryEnrichr := fun _ => raise interrupt;
  geneOntology := fun _ => ret tt
|}.

End Cases.

(** ** [BRAD/rag.py]: the helpers around the retrieval chain *)

Module Rag.
Import Py.

(** [getDocumentSimilarity]: the loop that appends to [docs] and
    [scores]. *)
Fixpoint similarity_loop {D S : Type} (documents : list (D * S))
    (docs : list D) (scores : list S) : list D * list S :=
  match documents with
  | [] => (docs, scores)
  | doc :: rest => similarity_loop rest (docs ++ [fst doc]) (scores ++ [snd doc])
  end.

(** [np_array] is numpy's [np.array] on the list of scores; what it makes
    of them (their common dtype) is numpy's. *)
Definition getDocumentSimilarity {D S A : Type} (np_array : list S -> A)
    (documents : list (D * S)) : list D * A :=
  let '(docs, scores) := similarity_loop documents [] [] in
  (docs, np_array scores).

(** An input document: its text and its metadata mapping. *)
Record Document := mkDocument {
  page_content : str;
  metadata : gmap str str
}.

(** The value stored per document:
    [{'page_content': ..., 'metadata': {'source': ...}}]. *)
Record DocumentJSON := mkDocumentJSON {
  json_page_content : str;
  json_source : str
}.

(** The [for i, doc in enumerate(input_documents)] loop. *)
Fixpoint documents_loop (i : nat) (input_documents : list Document)
    (inputDocsJSON : gmap nat DocumentJSON) : result (gmap nat DocumentJSON) :=
  match input_documents with
  | [] => Ok inputDocsJSON
  | doc :: rest =>
      match metadata doc !! lit "source" with
      | None => Raise (mkExc KeyError (lit "'source'"))
      | Some source =>
          documents_loop (S i) rest
            (<[i := mkDocumentJSON (page_content doc) source]> inputDocsJSON)
      end
  end.

(** What one document contributes, if its metadata names a source. *)
Definition document_json (doc : Document) : option DocumentJSON :=
  mkDocumentJSON (page_content doc) <$> metadata doc !! lit "source".

Definition getInputDocumentJSONs (input_documents : list Document)
    : result (gmap nat DocumentJSON) :=
  documents_loop 0 input_documents ∅.

(** What a turn of the chat log holds under one of its keys. *)
Inductive LogValue :=
  | LText (s : str)
  | LDict (d : gmap str str).

(** The ways [getPreviousInput] fails, by the expression that raises. *)
Inductive previous_input_error :=
  | EmptyKey                     (* key[-1]: IndexError *)
  | NotANumber (num : str)       (* int(num): ValueError *)
  | NoSuchTurn (n : Z)           (* log[int(num)]: KeyError *)
  | NoSuchField (text : str)     (* log[int(num)][text]: KeyError *)
  | NotAMapping (text : str)     (* a str indexed by 'output_text': TypeError *)
  | NoOutputText.                (* [...]['output_text']: KeyError *)

Section PreviousInput.
(** Python's [int()] on a [str]; [None] stands for [ValueError]. *)
Variable int : str -> option Z.

Definition getPreviousInput (log : gmap Z (gmap str LogValue)) (key : str)
    : previous_input_error + LogValue :=
  let num := slice_to key (-1) in
  match last key with
  | None => inl EmptyKey
  | Some c =>
      let text := [c] in
      match int num with
      | None => inl (NotANumber num)
      | Some n =>
          match log !! n with
          | None => inl (NoSuchTurn n)
          | Some turn =>
              match turn !! text with
              | None => inl (NoSuchField text)
              | Some v =>
                  if decide (text = lit "I") then inr v
                  else
                    match v with
                    | LText _ => inl (NotAMapping text)
                    | LDict d =>
                        match d !! lit "output_text" with
                        | None => inl NoOutputText
                        | Some out => inr (LText out)
                        end
                    end
              end
          end
      end
  end.

End PreviousInput.

(** [int()] on a non-empty run of ASCII digits; other texts are not
    covered. *)
Definition int_of_digits (s : str) : option Z :=
  if bool_decide (s <> []) && forallb (fun c => (48 <=? c) && (c <=? 57)) s
  then Some (fold_left (fun n c => (10 * n + Z.of_N (c - 48))%Z) s 0%Z)
  else None.

(** The log of the docstring's example. *)
Definition documented_log : gmap Z (gmap str LogValue) :=
  <[1%Z := <[lit "prompt" := LText (lit "What is the weather today?")]>
             {[lit "output" := LText (lit "The weather is sunny.")]}]>
    {[2%Z := <[lit "prompt" := LText (lit "Tell me about COVID-19.")]>
               {[lit "output" := LText (lit "COVID-19 is caused by...")]}]}.

End Rag.

(** ** [app.py]: the helpers and the session-removal endpoint *)

Module App.
Import Py.

Definition dot : char := 46.
Definition slash : char := 47.

(** [ALLOWED_EXTENSIONS] *)
Definition ALLOWED_EXTENSIONS : list str :=
  [lit "txt"; lit "pdf"; lit "png"; lit "jpg"; lit "jpeg"; lit "gif"].

(** The text before and after the first [c] of [s], if [c] occurs. *)
Fixpoint break_at (c : char) (s : str) : option (str * str) :=
  match s with
  | [] => None
  | x :: s' =>
      if x =? c then Some ([], s')
      else match break_at c s' with
           | Some (before, after) => Some (x :: before, after)
           | None => None
           end
  end.

(** [s.rsplit(c, 1)] for a one-character separator: one cut, at the last
    occurrence. *)
Definition rsplit1 (s : str) (c : char) : list str :=
  match break_at c (rev s) with
  | Some (after_reversed, before_reversed) =>
      [rev before_reversed; rev after_reversed]
  | None => [s]
  end.

Section AllowedFile.
(** Python's [str.lower]. *)
Variable lower : str -> str.

Definition allowed_file (filename : str) : result bool :=
  if contains [dot] filename
  then rbind (getitem (rsplit1 filename dot) 1) (fun extension =>
         Ok (bool_decide (lower extension ∈ ALLOWED_EXTENSIONS)))
  else Ok false.

End AllowedFile.

(** [str.lower] on texts of ASCII characters. *)
Definition ascii_lower (s : str) : str :=
  map (fun c => if (65 <=? c) && (c <=? 90) then c + 32 else c) s.

(** The stages shown for every answered turn. *)
Definition passed_log_stages : list (str * list str) :=
  [ (lit "RAG-R", [lit "source 1"; lit "source 2"; lit "source 3"]);
    (lit "RAG-G", [lit "This is chunk 1"; lit "This is chunk 2";
                   lit "This is chunk 3"]) ].

(** The second component of a turn of the display: the log the agent
    recorded, or the stages put in its place. *)
Inductive Shown (L : Type) :=
  | Recorded (log : L)
  | Stages (stages : list (str * list str)).
Arguments Recorded {L} log.
Arguments Stages {L} stages.

(** What the pass makes of one turn. *)
Definition shown_with_stages {Q L : Type} (turn : Q * option (Shown L))
    : Q * option (Shown L) :=
  (turn.1, (fun _ => Stages passed_log_stages) <$> turn.2).

(** The [for i in range(len(chat_history))] loop, updating the list in
    place; [todo] counts the indices still to visit. *)
Fixpoint display_loop {Q L : Type} (todo i : nat)
    (chat_history : list (Q * option (Shown L))) : list (Q * option (Shown L)) :=
  match todo with
  | O => chat_history
  | S todo' =>
      let chat_history :=
        match chat_history !! i with
        | Some (question, Some _) =>
            <[i := (question, Some (Stages passed_log_stages))]> chat_history
        | _ => chat_history
        end in
      display_loop todo' (S i) chat_history
  end.

Definition parse_log_for_process_display {Q L : Type}
    (chat_history : list (Q * option (Shown L))) : list (Q * option (Shown L)) :=
  display_loop (length chat_history) 0 chat_history.

(** [os.path.join(a, b)] on a POSIX host. *)
Definition path_join (a b : str) : str :=
  if startswith b [slash] then b
  else if bool_decide (a = []) || bool_decide (last a = Some slash) then a ++ b
  else a ++ [slash] ++ b.

(** What [shutil.rmtree] can raise, with the text of the exception; the
    last case stands for any other instance of [Exception]. *)
Inductive rmtree_error :=
  | PermissionError (text : str)
  | FileNotFoundError (text : str)
  | OtherError (text : str).

(** The host as the endpoint sees it: which paths exist and how removing a
    tree ends. *)
Record Host := mkHost {
  path_exists : str -> bool;
  rmtree : str -> option rmtree_error
}.

(** What the endpoint does besides answering. *)
Inductive Event :=
  | LogInfo (message : str)
  | LogWarning (message : str)
  | LogError (message : str)
  | Rmtree (path : str).           (* shutil.rmtree(path) was called *)

(** The JSON body [{"success": ..., "message": ...}] and the status code. *)
Record Response := mkResponse {
  success : bool;
  message : str;
  status : nat
}.

(** [f"{session_name}"] for a text or [None]. *)
Definition show (session_name : option str) : str :=
  match session_name with
  | Some name => name
  | None => lit "None"
  end.

(** [remove_open_sessions]: [session_name] is [request.json.get("message")],
    a text or [None]; [PATH_TO_OUTPUT_DIRECTORIES] is the configured log
    path, a text or [None]. *)
Definition remove_open_sessions (host : Host)
    (PATH_TO_OUTPUT_DIRECTORIES session_name : option str)
    : list Event * Response :=
  let received :=
    LogInfo (lit "Received request to remove session: " ++ show session_name) in
  match session_name with
  | None | Some [] =>
      ([received; LogError (lit "No session name provided in the request.")],
       mkResponse false (lit "No session name provided.") 400)
  | Some name =>
      match PATH_TO_OUTPUT_DIRECTORIES with
      | None | Some [] =>
          ([received; LogError (lit "Log path is not set in the configuration.")],
           mkResponse false (lit "Log path not configured.") 500)
      | Some path_to_output_directories =>
          let session_path := path_join path_to_output_directories name in
          if negb (path_exists host session_path)
          then
            ([received;
              LogWarning (lit "Session '" ++ name
                            ++ lit "' does not exist at path: " ++ session_path)],
             mkResponse false
               (lit "Session '" ++ name ++ lit "' does not exist.") 404)
          else
            match rmtree host session_path with
            | None =>
                ([received; Rmtree session_path;
                  LogInfo (lit "Successfully removed session: " ++ name)],
                 mkResponse true (lit "Session '" ++ name ++ lit "' removed.") 200)
            | Some (PermissionError text) =>
                ([received; Rmtree session_path;
                  LogError (lit "Permission denied while trying to remove session '"
                              ++ name ++ lit "': " ++ text)],
                 mkResponse false (lit "Permission denied: " ++ text) 403)
            | Some (FileNotFoundError text) =>
                ([received; Rmtree session_path;
                  LogError (lit "Session '" ++ name
                              ++ lit "' not found during deletion: " ++ text)],
                 mkResponse false (lit "Session not found: " ++ text) 404)
            | Some (OtherError text) =>
                ([received; Rmtree session_path;
                  LogError (lit "An error occurred while trying to remove session '"
                              ++ name ++ lit "': " ++ text)],
                 mkResponse false (lit "Error removing session: " ++ text) 500)
            end
      end
  end.

(** The paths [shutil.rmtree] was called on, in order. *)
Definition rmtree_calls (events : list Event) : list str :=
  omap (fun event => match event with Rmtree path => Some path | _ => None end)
       events.

(** A host on which only [/etc] exists and can be removed. *)
Definition host_with_etc : Host :=
  mkHost (fun p => bool_decide (p = lit "/etc")) (fun _ => None).

(** *** The upload endpoint *)

Definition UPLOAD_FOLDER : str := lit "/usr/src/uploads".
Definition DATABASE_FOLDER : str := lit "/usr/src/RAG_Database/".

(** What [upload_file] asks of the host, in order. *)
Inductive UploadEffect :=
  | MakeDirs (path : str)                      (* os.makedirs(path) *)
  | Save (filename : str) (file_location : str) (* file.save(file_location) *)
  | Printed (text : str)
  | CreateDatabase (docsPath dbPath : str).

(** The host of an upload: whether a path exists, and for every effect
    whether it completes ([None]) or raises, with the text raised. *)
Record UploadHost := mkUploadHost {
  upload_path_exists : str -> bool;
  fails : UploadEffect -> option str
}.

(** How the endpoint ends: with the JSON body [{"message": ...}], with the
    [UnboundLocalError] of reading [response] before any assignment, or
    with an exception of the host. *)
Inductive UploadOutcome :=
  | Answered (message : str)
  | ResponseUnbound
  | HostRaised (text : str).

Section Upload.
(** Python's [str.lower] and werkzeug's [secure_filename]. *)
Variable lower : str -> str.
Variable secure_filename : str -> str.
Variable host : UploadHost.

(** One effect: recorded, then either completed or raised. *)
Definition perform (effect : UploadEffect) (done : list UploadEffect)
    : list UploadEffect * option str :=
  (done ++ [effect], fails host effect).

(** The [for file in file_list] loop over the names of the files;
    [response] is [None] while the variable is unbound.  A file object is
    true exactly when its name is not empty. *)
Fixpoint upload_loop (directory_with_time : str) (file_list : list str)
    (done : list UploadEffect) (response : option str)
    : list UploadEffect * (str + option str) :=
  match file_list with
  | [] => (done, inr response)
  | filename :: rest =>
      let response :=
        if bool_decide (filename = []) then Some (lit "no uploaded file")
        else response in
      match (if bool_decide (filename <> [])
             then allowed_file lower filename else Ok false) with
      | Raise e => (done, inl (exc_text e))
      | Ok false => upload_loop directory_with_time rest done response
      | Ok true =>
          let file_location :=
            path_join directory_with_time (secure_filename filename) in
          match perform (Save filename file_location) done with
          | (done, Some text) => (done, inl text)
          | (done, None) =>
              upload_loop directory_with_time rest done
                (Some (lit "File uploaded successfully"))
          end
      end
  end.

(** [upload_file]: [file_list] holds the names of the uploaded files and
    [timestr] is the formatted time of the request. *)
Definition upload_file (file_list : list str) (timestr : str)
    : list UploadEffect * UploadOutcome :=
  let directory_with_time := path_join UPLOAD_FOLDER timestr in
  let made :=
    if negb (upload_path_exists host directory_with_time)
    then perform (MakeDirs directory_with_time) []
    else ([], None) in
  match made with
  | (done, Some text) => (done, HostRaised text)
  | (done, None) =>
      match upload_loop directory_with_time file_list done None with
      | (done, inl text) => (done, HostRaised text)
      | (done, inr response) =>
          match perform (Printed (lit "File uploads done")) done with
          | (done, Some text) => (done, HostRaised text)
          | (done, None) =>
              match perform (Printed (lit "running database creation")) done with
              | (done, Some text) => (done, HostRaised text)
              | (done, None) =>
                  match perform (CreateDatabase directory_with_time DATABASE_FOLDER)
                                done with
                  | (done, Some text) => (done, HostRaised text)
                  | (done, None) =>
                      match response with
                      | Some message => (done, Answered message)
                      | None => (done, ResponseUnbound)
                      end
                  end
              end
          end
      end
  end.

(** *** Vocabulary for the statements about the upload *)

(** The file is saved: it has a name and an allowed extension. *)
Definition accepted (filename : str) : bool :=
  bool_decide (filename <> [])
  && match allowed_file lower filename with
     | Ok true => true
     | _ => false
     end.

(** What one file makes of [response], if it assigns it. *)
Definition verdict (filename : str) : option str :=
  if bool_decide (filename = []) then Some (lit "no uploaded file")
  else if accepted filename then Some (lit "File uploaded successfully")
  else None.

(** The effects of a run in which every effect completes. *)
Definition upload_effects (file_list : list str) (timestr : str)
    : list UploadEffect :=
  let directory_with_time := path_join UPLOAD_FOLDER timestr in
  (if upload_path_exists host directory_with_time then []
   else [MakeDirs directory_with_time])
  ++ map (fun filename =>
            Save filename
              (path_join directory_with_time (secure_filename filename)))
         (List.filter accepted file_list)
  ++ [Printed (lit "File uploads done");
      Printed (lit "running database creation");
      CreateDatabase directory_with_time DATABASE_FOLDER].

End Upload.

(** A host on which nothing exists yet and every effect completes. *)
Definition willing_host : UploadHost :=
  mkUploadHost (fun _ => false) (fun _ => None).

End App.

(** ** Facts about the string primitives *)

Module PyFacts.
Import Py.

Lemma startswith_app (p t : str) : startswith (p ++ t) p = true.
Proof.
  induction p as [|a p IH]; [done|].
  simpl. by rewrite N.eqb_refl, IH.
Qed.

Lemma startswith_inv (p s : str) :
  startswith s p = true -> exists t, s = p ++ t.
Proof.
  revert s. induction p as [|a p IH]; intros s Hs; simpl in *.
  - by exists s.
  - destruct s as [|b s]; [done|].
    apply andb_true_iff in Hs as [Hab Hs].
    apply N.eqb_eq in Hab as ->.
    destruct (IH _ Hs) as [t ->]. by exists t.
Qed.

Lemma startswith_nil (s : str) : startswith s [] = true.
Proof. by destruct s. Qed.

Lemma contains_intro (sub a b : str) : contains sub (a ++ sub ++ b) = true.
Proof.
  induction a as [|x a IH]; simpl.
  - destruct (sub ++ b) eqn:E; simpl.
    + rewrite <- E. by rewrite startswith_app.
    + rewrite <- E. by rewrite startswith_app.
  - by rewrite IH, orb_true_r.
Qed.

Lemma contains_inv (sub s : str) :
  contains sub s = true -> exists a b, s = a ++ sub ++ b.
Proof.
  induction s as [|x s IH]; simpl; intros Hc.
  - rewrite orb_false_r in Hc. apply startswith_inv in Hc as [t ->].
    by exists [], t.
  - apply orb_true_iff in Hc as [Hp|Hc].
    + apply startswith_inv in Hp as [t ->]. by exists [], t.
    + destruct (IH Hc) as (a & b & ->). by exists (x :: a), b.
Qed.

(** A text that lacks [sub] keeps lacking it in each of its pieces. *)
Lemma contains_false_piece (sub a m b : str) :
  contains sub (a ++ m ++ b) = false -> contains sub m = false.
Proof.
  intros Hf. destruct (contains sub m) eqn:E; [|done].
  apply contains_inv in E as (a' & b' & ->).
  rewrite <- Hf. symmetry.
  replace (a ++ (a' ++ sub ++ b') ++ b) with ((a ++ a') ++ sub ++ (b' ++ b))
    by (by rewrite <- !app_assoc).
  apply contains_intro.
Qed.

Lemma contains_false_cons (sub : str) (x : char) (s : str) :
  startswith (x :: s) sub = false -> contains sub s = false ->
  contains sub (x :: s) = false.
Proof. intros Hp Hc. cbn [contains]. by rewrite Hp, Hc. Qed.

Lemma contains_false_nonempty (sub s : str) :
  contains sub s = false -> sub <> [].
Proof.
  intros Hc ->. destruct s; simpl in Hc; discriminate.
Qed.

(** *** [replace] *)

Lemma replace_from_skip (old new a s : str) :
  replace_from old new (length a) (a ++ s) = replace_from old new 0 s.
Proof. induction a as [|x a IH]; [by destruct s|done]. Qed.

Lemma replace_absent (s old new : str) :
  contains old s = false -> replace s old new = s.
Proof.
  unfold replace. induction s as [|x s IH]; [done|].
  cbn [contains replace_from]. intros Hc.
  apply orb_false_iff in Hc as [Hp Hc]. rewrite Hp. f_equal. auto.
Qed.

(** Deleting a label at the head of a line that holds it nowhere else. *)
Lemma replace_label (old d : str) :
  contains old d = false -> replace (old ++ d) old [] = d.
Proof.
  intros Hc. pose proof (contains_false_nonempty _ _ Hc) as Hne.
  destruct old as [|c old]; [done|].
  unfold replace. cbn [app replace_from].
  change (c :: old ++ d) with ((c :: old) ++ d). rewrite startswith_app.
  replace (length (c :: old) - 1)%nat with (length old) by (simpl; lia).
  cbn [app]. rewrite replace_from_skip. by apply replace_absent.
Qed.

(** Deleting one character is a filter. *)
Lemma replace_char (s : str) (c : char) :
  replace s [c] [] = filter (fun x => x <> c) s.
Proof.
  unfold replace. induction s as [|x s IH]; [done|].
  rewrite filter_cons. cbn [replace_from startswith]. rewrite andb_true_r.
  destruct (N.eqb_spec c x) as [->|Hne].
  - rewrite decide_False by (intros ?; done). simpl. exact IH.
  - rewrite decide_True by congruence. by rewrite IH.
Qed.

Lemma replace_char_lacks (s : str) (c : char) : lacks c (replace s [c] []).
Proof.
  rewrite replace_char. unfold lacks. rewrite list_elem_of_filter. tauto.
Qed.

Lemma replace_char_keeps (s : str) (c x : char) :
  lacks x s -> lacks x (replace s [c] []).
Proof.
  rewrite replace_char. unfold lacks. rewrite list_elem_of_filter. tauto.
Qed.

Lemma replace_char_id (s : str) (c : char) :
  lacks c s -> replace s [c] [] = s.
Proof.
  rewrite replace_char. unfold lacks. induction s as [|x s IH]; [done|].
  intros Hn. apply not_elem_of_cons in Hn as [Hx Hs].
  rewrite filter_cons_True by congruence. f_equal. auto.
Qed.

(** [replace] never brings in a character that [s] and [new] lack. *)
Lemma replace_from_lacks (old new : str) (x : char) (k : nat) (s : str) :
  lacks x s -> lacks x new -> lacks x (replace_from old new k s).
Proof.
  unfold lacks. revert k. induction s as [|c s IH]; intros k Hs Hn.
  - simpl. apply not_elem_of_nil.
  - apply not_elem_of_cons in Hs as [Hc Hs]. simpl. destruct k.
    + destruct (startswith (c :: s) old).
      * rewrite elem_of_app. intros [?|?]; [done|]. by eapply IH.
      * rewrite not_elem_of_cons. split; [done|]. by apply IH.
    + by apply IH.
Qed.

(** *** [split] and [join] *)

Lemma split_from_nonempty (sep : str) (k : nat) (s : str) :
  split_from sep k s <> [].
Proof.
  revert k. induction s as [|x s IH]; intros k; [done|].
  simpl. destruct k; [|apply IH].
  destruct (startswith (x :: s) sep); [done|].
  specialize (IH 0%nat). by destruct (split_from sep 0 s).
Qed.

Lemma split_length_count (sep : str) (k : nat) (s : str) :
  length (split_from sep k s) = S (count_from sep k s).
Proof.
  revert k. induction s as [|x s IH]; intros k; [done|].
  simpl. destruct k; [|apply IH].
  destruct (startswith (x :: s) sep); simpl; [by rewrite IH|].
  rewrite <- IH.
  pose proof (split_from_nonempty sep 0 s).
  by destruct (split_from sep 0 s).
Qed.

Lemma split_char_sep (c : char) (s : str) :
  split (c :: s) [c] = [] :: split s [c].
Proof. unfold split. simpl. by rewrite N.eqb_refl. Qed.

Lemma split_char_other (c x : char) (s : str) :
  x <> c ->
  split (x :: s) [c] =
    match split s [c] with
    | seg :: rest => (x :: seg) :: rest
    | [] => [[x]]
    end.
Proof.
  intros Hne. unfold split. simpl.
  destruct (N.eqb_spec c x); [congruence|done].
Qed.

Lemma split_char_none (c : char) (a : str) :
  lacks c a -> split a [c] = [a].
Proof.
  unfold lacks. induction a as [|x a IH]; intros Hn; [done|].
  apply not_elem_of_cons in Hn as [Hx Ha].
  rewrite split_char_other by congruence. by rewrite IH.
Qed.

Lemma split_char_app (c : char) (a b : str) :
  lacks c a -> split (a ++ c :: b) [c] = a :: split b [c].
Proof.
  unfold lacks. induction a as [|x a IH]; intros Hn.
  - apply split_char_sep.
  - apply not_elem_of_cons in Hn as [Hx Ha]. cbn [app].
    rewrite split_char_other by congruence. by rewrite IH.
Qed.

Lemma join_split_char (c : char) (s : str) :
  join [c] (split s [c]) = s.
Proof.
  induction s as [|x s IH]; [done|].
  destruct (decide (x = c)) as [->|Hne].
  - rewrite split_char_sep.
    pose proof (split_from_nonempty [c] 0 s) as Hne. fold (split s [c]) in Hne.
    destruct (split s [c]) as [|seg rest] eqn:E; [done|].
    by rewrite <- IH.
  - rewrite split_char_other by done.
    pose proof (split_from_nonempty [c] 0 s) as Hn. fold (split s [c]) in Hn.
    destruct (split s [c]) as [|seg rest] eqn:E; [done|].
    rewrite <- IH. by destruct rest.
Qed.

Lemma split_char_lacks (c : char) (s seg : str) :
  seg ∈ split s [c] -> lacks c seg.
Proof.
  unfold lacks. revert seg. induction s as [|x s IH]; intros seg Hin.
  - apply list_elem_of_singleton in Hin as ->. apply not_elem_of_nil.
  - destruct (decide (x = c)) as [->|Hne].
    + rewrite split_char_sep in Hin. apply elem_of_cons in Hin as [->|Hin].
      * apply not_elem_of_nil.
      * by apply IH.
    + rewrite split_char_other in Hin by done.
      destruct (split s [c]) as [|seg' rest] eqn:E.
      * apply list_elem_of_singleton in Hin as ->.
        rewrite not_elem_of_cons. split; [congruence|apply not_elem_of_nil].
      * apply elem_of_cons in Hin as [->|Hin].
        -- rewrite not_elem_of_cons. split; [congruence|].
           apply IH. by left.
        -- apply IH. by right.
Qed.

(** *** [strip] *)

Lemma blank_lstrip (s : str) : blank s -> lstrip s = [].
Proof.
  induction 1 as [|x s Hx _ IH]; [done|]. simpl. by rewrite Hx.
Qed.

Lemma lstrip_nil_blank (s : str) : lstrip s = [] -> blank s.
Proof.
  unfold blank. induction s as [|x s IH]; [constructor|].
  simpl. destruct (isspace x) eqn:E; [|done].
  intros Hs. constructor; auto.
Qed.

Lemma lstrip_blank_app (a s : str) : blank a -> lstrip (a ++ s) = lstrip s.
Proof.
  induction 1 as [|x a Hx _ IH]; [done|]. simpl. by rewrite Hx.
Qed.

Lemma lstrip_app_keep (u v : str) :
  lstrip u <> [] -> lstrip (u ++ v) = lstrip u ++ v.
Proof.
  induction u as [|x u IH]; [done|]. simpl.
  destruct (isspace x); [apply IH|done].
Qed.

Lemma lstrip_idem (s : str) : lstrip (lstrip s) = lstrip s.
Proof.
  induction s as [|x s IH]; [done|]. simpl.
  destruct (isspace x) eqn:E; [done|]. simpl. by rewrite E.
Qed.

Lemma lstrip_suffix (s : str) : exists a, blank a /\ s = a ++ lstrip s.
Proof.
  induction s as [|x s (a & Ha & IH)].
  - exists []. split; [constructor|done].
  - simpl. destruct (isspace x) eqn:E.
    + exists (x :: a). split; [by constructor|]. simpl. by rewrite <- IH.
    + exists []. split; [constructor|done].
Qed.

Lemma blank_rev (s : str) : blank s -> blank (rev s).
Proof. apply List.Forall_rev. Qed.

Lemma blank_rstrip (s : str) : blank s -> rstrip s = [].
Proof.
  intros Hb. unfold rstrip. by rewrite blank_lstrip by by apply blank_rev.
Qed.

Lemma rstrip_nil_blank (s : str) : rstrip s = [] -> blank s.
Proof.
  unfold rstrip. intros Hr.
  assert (lstrip (rev s) = []) as Hl.
  { apply (f_equal (@rev _)) in Hr. by rewrite rev_involutive in Hr. }
  apply lstrip_nil_blank, blank_rev in Hl. by rewrite rev_involutive in Hl.
Qed.

Lemma rstrip_blank_app (s b : str) : blank b -> rstrip (s ++ b) = rstrip s.
Proof.
  intros Hb. unfold rstrip. rewrite rev_app_distr.
  by rewrite lstrip_blank_app by by apply blank_rev.
Qed.

Lemma rstrip_app_keep (u v : str) :
  rstrip v <> [] -> rstrip (u ++ v) = u ++ rstrip v.
Proof.
  intros Hv. unfold rstrip in *. rewrite rev_app_distr.
  rewrite lstrip_app_keep.
  - by rewrite rev_app_distr, rev_involutive.
  - intros E. apply Hv. by rewrite E.
Qed.

Lemma rstrip_cons_keep (x : char) (s : str) :
  isspace x = false -> rstrip (x :: s) = x :: rstrip s.
Proof.
  intros Hx. unfold rstrip. simpl.
  destruct (lstrip (rev s)) as [|y t] eqn:E.
  - rewrite lstrip_blank_app by by apply lstrip_nil_blank.
    simpl. by rewrite Hx.
  - rewrite lstrip_app_keep by by rewrite E.
    rewrite E, rev_app_distr. done.
Qed.

Lemma rstrip_idem (s : str) : rstrip (rstrip s) = rstrip s.
Proof. unfold rstrip. by rewrite rev_involutive, lstrip_idem. Qed.

Lemma rstrip_prefix (s : str) : exists b, blank b /\ s = rstrip s ++ b.
Proof.
  destruct (lstrip_suffix (rev s)) as (a & Ha & E).
  exists (rev a). split; [by apply blank_rev|].
  unfold rstrip. rewrite <- rev_app_distr, <- E. by rewrite rev_involutive.
Qed.

Lemma lstrip_rstrip (s : str) : lstrip (rstrip s) = rstrip (lstrip s).
Proof.
  induction s as [|x s IH]; [done|].
  cbn [lstrip]. destruct (isspace x) eqn:E.
  - rewrite <- IH. destruct (rstrip s) as [|y t] eqn:Er.
    + change (x :: s) with ([x] ++ s).
      rewrite blank_rstrip; [done|].
      apply Forall_app. split; [by repeat constructor|by apply rstrip_nil_blank].
    + change (x :: s) with ([x] ++ s).
      rewrite rstrip_app_keep by by rewrite Er.
      rewrite Er. simpl. by rewrite E.
  - rewrite !rstrip_cons_keep by done. simpl. by rewrite E.
Qed.

Lemma strip_idem (s : str) : strip (strip s) = strip s.
Proof.
  unfold strip. by rewrite lstrip_rstrip, lstrip_idem, rstrip_idem.
Qed.

Lemma strip_rstrip (s : str) : strip (rstrip s) = strip s.
Proof. unfold strip. by rewrite lstrip_rstrip, rstrip_idem. Qed.

Lemma strip_blank_app (a s : str) : blank a -> strip (a ++ s) = strip s.
Proof. intros Ha. unfold strip. by rewrite lstrip_blank_app. Qed.

(** [strip] returns a piece of its argument. *)
Lemma strip_piece (s : str) : exists a b, s = a ++ strip s ++ b.
Proof.
  destruct (lstrip_suffix s) as (a & _ & Ea).
  destruct (rstrip_prefix (lstrip s)) as (b & _ & Eb).
  exists a, b. unfold strip. by rewrite <- Eb.
Qed.

Lemma rstrip_piece (s : str) : exists a b, s = a ++ rstrip s ++ b.
Proof. destruct (rstrip_prefix s) as (b & _ & E). by exists [], b. Qed.

Lemma lacks_piece (x : char) (a m b : str) :
  lacks x (a ++ m ++ b) -> lacks x m.
Proof. unfold lacks. rewrite !elem_of_app. tauto. Qed.

Lemma strip_lacks (x : char) (s : str) : lacks x s -> lacks x (strip s).
Proof.
  destruct (strip_piece s) as (a & b & E). intros Hl.
  rewrite E in Hl. by eapply lacks_piece.
Qed.

Lemma strip_contains_false (sub s : str) :
  contains sub s = false -> contains sub (strip s) = false.
Proof.
  destruct (strip_piece s) as (a & b & E). intros Hl.
  rewrite E in Hl. by eapply contains_false_piece.
Qed.

(** The whole-text [strip] of a padded text whose first character and some
    later character are not blank. *)
Lemma strip_padded (lead body l trail : str) (x y : char) :
  blank lead -> blank trail -> isspace x = false -> isspace y = false ->
  strip (lead ++ (x :: body ++ y :: l) ++ trail)
  = x :: body ++ y :: rstrip l.
Proof.
  intros Hl Ht Hx Hy. unfold strip. rewrite lstrip_blank_app by done.
  replace ((x :: body ++ y :: l) ++ trail)
    with (x :: body ++ y :: (l ++ trail))
    by (simpl; by rewrite <- app_assoc).
  cbn [lstrip]. rewrite Hx.
  change (x :: body ++ y :: (l ++ trail))
    with ((x :: body) ++ (y :: (l ++ trail))).
  rewrite rstrip_app_keep.
  - rewrite rstrip_cons_keep by done. by rewrite rstrip_blank_app.
  - by rewrite rstrip_cons_keep.
Qed.

End PyFacts.

(** ** Facts about the regular expression *)

Module ReFacts.
Import Py Re PyFacts.

Lemma until_newline_app (b c : str) :
  exists g, until_newline (b ++ newline :: c) = Some g.
Proof.
  induction b as [|x b [g IH]]; simpl.
  - by exists [].
  - rewrite IH. destruct (x =? newline); eauto.
Qed.

Lemma until_newline_inv (s g : str) :
  until_newline s = Some g -> exists c, s = g ++ newline :: c.
Proof.
  revert g. induction s as [|x s IH]; intros g; simpl; [done|].
  destruct (N.eqb_spec x newline) as [->|Hne].
  - intros [= <-]. by exists s.
  - destruct (until_newline s) as [g'|]; [|done].
    intros [= <-]. destruct (IH _ eq_refl) as [c ->]. by exists c.
Qed.

Lemma match_here_inv (s g : str) :
  match_here s = Some g -> exists c, s = prompt_marker ++ g ++ newline :: c.
Proof.
  unfold match_here. destruct (startswith s prompt_marker) eqn:E; [|done].
  apply startswith_inv in E as [t ->].
  rewrite drop_app_length. intros Hu.
  apply until_newline_inv in Hu as [c ->]. by exists c.
Qed.

Lemma match_here_marker (b c : str) :
  exists g, match_here (prompt_marker ++ b ++ newline :: c) = Some g.
Proof.
  unfold match_here. rewrite startswith_app, drop_app_length.
  apply until_newline_app.
Qed.

(** A match reported by [findall] lies on a marker that a newline follows. *)
Lemma findall_from_inv (k : nat) (s : str) :
  findall_from k s <> [] ->
  exists a b c, s = a ++ prompt_marker ++ b ++ newline :: c.
Proof.
  revert k. induction s as [|x s IH]; intros k; [done|].
  simpl. destruct k as [|k].
  - destruct (match_here (x :: s)) as [g|] eqn:E.
    + intros _. apply match_here_inv in E as [c E].
      exists [], g, c. by rewrite E.
    + intros Hn. destruct (IH _ Hn) as (a & b & c & ->).
      by exists (x :: a), b, c.
  - intros Hn. destruct (IH _ Hn) as (a & b & c & ->).
    by exists (x :: a), b, c.
Qed.

(** Conversely, such a marker always yields a match. *)
Lemma findall_marker (a b c : str) :
  findall_prompt (a ++ prompt_marker ++ b ++ newline :: c) <> [].
Proof.
  unfold findall_prompt. induction a as [|x a IH].
  - destruct (match_here_marker b c) as [g Hg].
    cbn [app]. remember (prompt_marker ++ b ++ newline :: c) as s eqn:Es.
    destruct s as [|y s]; [done|]. simpl. by rewrite Hg.
  - cbn [app findall_from].
    by destruct (match_here (x :: a ++ prompt_marker ++ b ++ newline :: c)).
Qed.

End ReFacts.

(** ** The Stage Decomposer *)

Module PlannerFacts.
Import Py Re Session Planner PyFacts ReFacts.

Lemma prompt_line_findall (seg : str) :
  prompt_line seg <-> findall_prompt seg <> [].
Proof.
  split.
  - intros (a & b & c & ->). apply findall_marker.
  - apply findall_from_inv.
Qed.

Lemma append_stages_ok (i : nat) (seg p0 : str) (rest found : list str)
    (acc : list Stage) :
  append_stages i seg (p0 :: rest) found acc
  = Ok (acc ++ map (fun m => mkStage i m (lit "/force " ++ m ++ lit " " ++ p0) seg)
                   found).
Proof.
  revert acc. induction found as [|m found IH]; intros acc; simpl.
  - by rewrite app_nil_r.
  - rewrite IH. by rewrite <- app_assoc.
Qed.

Lemma append_stages_no_prompt (i : nat) (seg : str) (found : list str)
    (acc : list Stage) :
  found <> [] ->
  append_stages i seg [] found acc
  = Raise index_error.
Proof. by destruct found. Qed.

Lemma stage_records_nil (i : nat) (seg : str) :
  found_modules seg = [] -> stage_records i seg = [].
Proof. unfold stage_records. by intros ->. Qed.

(** When every segment that names a module has a prompt line, the loop
    completes and emits the records of each segment in turn. *)
Lemma stages_loop_ok (i : nat) (segs : list str) (acc : list Stage) :
  (forall seg, seg ∈ segs -> found_modules seg <> [] -> prompt_line seg) ->
  stages_loop i segs acc = Ok (acc ++ emitted i segs).
Proof.
  revert i acc. induction segs as [|seg segs IH]; intros i acc Hall.
  - simpl. by rewrite app_nil_r.
  - cbn [stages_loop emitted].
    assert (forall s, s ∈ segs -> found_modules s <> [] -> prompt_line s) as Hrest
      by (intros s Hs; apply Hall; by right).
    destruct (found_modules seg) as [|m fm] eqn:Efm.
    + simpl. rewrite stage_records_nil by done. by apply IH.
    + cbn [length Nat.eqb].
      assert (prompt_line seg) as Hp
        by (apply Hall; [by left|by rewrite Efm]).
      apply prompt_line_findall in Hp.
      unfold stage_records. rewrite Efm.
      destruct (findall_prompt seg) as [|p0 ps]; [done|].
      rewrite append_stages_ok. cbn [rbind head default].
      rewrite IH by done. by rewrite <- app_assoc.
Qed.

(** A segment that names a module without a prompt line stops the loop. *)
Lemma stages_loop_fail (i : nat) (segs : list str) (acc : list Stage) (seg : str) :
  seg ∈ segs -> found_modules seg <> [] -> ~ prompt_line seg ->
  stages_loop i segs acc
  = Raise index_error.
Proof.
  revert i acc. induction segs as [|s segs IH]; intros i acc Hin Hfm Hnp.
  - by apply elem_of_nil in Hin.
  - cbn [stages_loop].
    destruct (found_modules s) as [|m fm] eqn:Efm.
    + simpl. apply IH; [|done..].
      apply elem_of_cons in Hin as [->|Hin]; [congruence|done].
    + cbn [length Nat.eqb].
      destruct (findall_prompt s) as [|p0 ps] eqn:Ef.
      * by rewrite append_stages_no_prompt.
      * rewrite append_stages_ok. cbn [rbind]. apply IH; [|done..].
        apply elem_of_cons in Hin as [->|Hin]; [|done].
        exfalso. apply Hnp, prompt_line_findall. by rewrite Ef.
Qed.

Lemma emitted_length (i : nat) (segs : list str) :
  length (emitted i segs) = mentions segs.
Proof.
  unfold mentions. revert i. induction segs as [|seg segs IH]; intros i; [done|].
  cbn [emitted map sum_list sum_list_with]. rewrite length_app, IH.
  unfold stage_records. by rewrite length_map.
Qed.

Lemma emitted_order (i : nat) (segs : list str) :
  Forall (fun s => (i <= order s < i + length segs)%nat) (emitted i segs).
Proof.
  revert i. induction segs as [|seg segs IH]; intros i; [constructor|].
  cbn [emitted]. apply Forall_app. split.
  - unfold stage_records. apply Forall_map, Forall_true. simpl. lia.
  - eapply Forall_impl; [apply IH|]. simpl. lia.
Qed.

Lemma emitted_sorted (i : nat) (segs : list str) :
  StronglySorted le (map order (emitted i segs)).
Proof.
  revert i. induction segs as [|seg segs IH]; intros i; [constructor|].
  cbn [emitted]. rewrite map_app. apply StronglySorted_app_2.
  - intros x1 x2 H1 H2.
    apply list_elem_of_fmap in H1 as (s1 & -> & H1).
    apply list_elem_of_fmap in H2 as (s2 & -> & H2).
    unfold stage_records in H1.
    apply list_elem_of_fmap in H1 as (m & -> & _). simpl.
    pose proof (emitted_order (S i) segs) as Ho.
    rewrite Forall_forall in Ho. specialize (Ho _ H2). lia.
  - unfold stage_records. rewrite map_map. simpl.
    induction (found_modules seg); simpl; constructor; [done|].
    apply Forall_forall. intros x Hx.
    apply list_elem_of_fmap in Hx as (? & -> & _). done.
  - apply IH.
Qed.

(** Each record stems from the segment its [order] numbers. *)
Lemma emitted_origin (i : nat) (segs : list str) (s : Stage) :
  s ∈ emitted i segs ->
  exists seg, segs !! (order s - i)%nat = Some seg
              /\ (i <= order s)%nat
              /\ module s ∈ found_modules seg
              /\ description s = seg.
Proof.
  revert i. induction segs as [|seg segs IH]; intros i Hin.
  - by apply elem_of_nil in Hin.
  - cbn [emitted] in Hin. apply elem_of_app in Hin as [Hin|Hin].
    + unfold stage_records in Hin.
      apply list_elem_of_fmap in Hin as (m & -> & Hm). simpl.
      exists seg. rewrite Nat.sub_diag. done.
    + destruct (IH _ Hin) as (seg' & Hl & Hle & Hm & Hd).
      exists seg'. split_and!; [|lia|done..].
      replace (order s - i)%nat with (S (order s - S i)) by lia. done.
Qed.


(** Evaluate the segments of a concrete response inside [Hin]. *)
Ltac segments_in Hin :=
  match type of Hin with
  | ?seg ∈ ?l => let l' := eval vm_compute in l in change (seg ∈ l') in Hin
  end.

Lemma decomposed_emitted (response : str) :
  decomposed response (emitted 0 (split response step_marker)).
Proof.
  unfold decomposed. set (segs := split response step_marker).
  assert (length segs = S (count response step_marker)) as Hlen
    by apply split_length_count.
  split_and!.
  - apply emitted_length.
  - eapply Forall_impl; [apply emitted_order|]. simpl. lia.
  - apply emitted_sorted.
  - intros seg Hhd Hfm. apply Forall_forall. intros s Hs Ho.
    destruct (emitted_origin _ _ _ Hs) as (seg' & Hl & _ & Hm & _).
    rewrite Ho, <- head_lookup, Hhd in Hl. injection Hl as <-.
    rewrite Hfm in Hm. by apply elem_of_nil in Hm.
Qed.

(** C3, as the scenario states it, fails: the text before the first marker
    is segment 0, so the two steps are numbered 1 and 2, not 0 and 1. *)
Lemma two_step_plan_not_0_1 : ~ two_step_claim.
Proof.
  intros (s0 & s1 & Hr & Ho & _).
  vm_compute in Hr. injection Hr as <- _. vm_compute in Ho. discriminate.
Qed.

(** C3, amended: on the planning response of the scenario the Stage
    Decomposer returns exactly two records, with [order] 1 for ["RAG"] and
    [order] 2 for ["WRITE"], each with its forced-routing prompt and with
    the whole segment as description. *)
Theorem two_step_plan_stages :
  response2processes two_step_plan
  = Ok [ mkStage 1 (lit "RAG") (lit "/force RAG find genes")
           (lit "0** ... RAG ... Prompt: find genes" ++ [newline; newline]);
         mkStage 2 (lit "WRITE") (lit "/force WRITE summarize")
           (lit "1** ... WRITE ... Prompt: summarize" ++ [newline; newline]) ].
Proof. vm_compute. reflexivity. Qed.

(** C4, as written, fails: a segment may contain the text ["Prompt: "]
    and yet give the regular expression nothing to match, because no
    newline ends the prompt inside that segment; indexing the empty list of
    matches then raises. *)
Lemma bare_marker_not_enough : ~ count_claim_bare_marker plan_without_line_end.
Proof.
  intros Hc. destruct Hc as (ps & Hr & _).
  - intros seg Hin _. segments_in Hin.
    repeat (apply elem_of_cons in Hin as [->|Hin]; [by vm_compute|]).
    by apply elem_of_nil in Hin.
  - vm_compute in Hr. discriminate.
Qed.

(** C4, amended: for a planning response with [k] step markers and [m]
    module mentions over its segments, where every segment that names a
    module holds a ["Prompt: "] marker followed by a newline inside that
    segment, the Stage Decomposer returns exactly [m] records, every
    [order] lies in [0..k], the [order] values never decrease along the
    result, and a preamble that names no module contributes no record. *)
Theorem decomposer_count (response : str) :
  (forall seg, seg ∈ split response step_marker ->
     found_modules seg <> [] -> prompt_line seg) ->
  exists ps, response2processes response = Ok ps /\ decomposed response ps.
Proof.
  intros Hall. exists (emitted 0 (split response step_marker)). split.
  - unfold response2processes. cbn zeta. by rewrite stages_loop_ok.
  - apply decomposed_emitted.
Qed.

Lemma decomposer_count_witness :
  exists ps, response2processes two_step_plan = Ok ps
             /\ decomposed two_step_plan ps.
Proof.
  apply (decomposer_count two_step_plan).
  intros seg Hin Hfm. apply prompt_line_findall. segments_in Hin.
  repeat (apply elem_of_cons in Hin as [->|Hin];
          [first [by vm_compute | by exfalso; apply Hfm; vm_compute]|]).
  by apply elem_of_nil in Hin.
Defined.

(** C8: a segment that names a known module but holds no ["Prompt: "]
    marker followed by a newline makes the Stage Decomposer raise
    ([IndexError] from [prompt[0]]); no record with an empty or defaulted
    prompt is produced. *)
Theorem module_without_prompt_raises (response seg : str) :
  seg ∈ split response step_marker ->
  found_modules seg <> [] ->
  ~ prompt_line seg ->
  response2processes response
  = Raise index_error.
Proof.
  intros Hin Hfm Hnp. unfold response2processes. cbn zeta.
  by eapply stages_loop_fail.
Qed.

Lemma module_without_prompt_raises_witness :
  response2processes plan_without_prompt
  = Raise index_error.
Proof.
  apply (module_without_prompt_raises plan_without_prompt
           (lit "1** use RAG to look up the genes" ++ [newline; newline])).
  - apply list_elem_of_In. vm_compute. right. by left.
  - vm_compute. discriminate.
  - rewrite prompt_line_findall. vm_compute. intros Hn. by apply Hn.
Defined.

End PlannerFacts.

(** ** The Response Parser *)

Module ParserFacts.
Import Py Session GeneDatabaseCaller PyFacts.

(** Evaluate the string literals of the goal. *)
Ltac eval_lits :=
  repeat match goal with
         | |- context [lit ?s] =>
             let v := eval vm_compute in (lit s) in change (lit s) with v
         end.

(** Right-nest the appends of the goal. *)
Ltac flatten :=
  repeat progress (cbn [app]; rewrite <- ?app_assoc, ?app_nil_r).

(** Boolean tests that settle [lacks] and [blank] on concrete texts. *)
Lemma lacks_test (c : char) (s : str) :
  forallb (fun x => negb (x =? c)) s = true -> lacks c s.
Proof.
  unfold lacks. induction s as [|x s IH]; simpl; intros Ht.
  - apply not_elem_of_nil.
  - apply andb_true_iff in Ht as [Hx Hs]. apply not_elem_of_cons. split.
    + intros ->. by rewrite N.eqb_refl in Hx.
    + by apply IH.
Qed.

Lemma blank_test (s : str) : forallb isspace s = true -> blank s.
Proof.
  unfold blank. induction s as [|x s IH]; simpl; intros Ht; [constructor|].
  apply andb_true_iff in Ht as [Hx Hs]. constructor; auto.
Qed.

Lemma lacks_app (x : char) (a b : str) :
  lacks x a -> lacks x b -> lacks x (a ++ b).
Proof. unfold lacks. rewrite elem_of_app. tauto. Qed.

Lemma lacks_cons (x c : char) (s : str) :
  x <> c -> lacks x s -> lacks x (c :: s).
Proof. unfold lacks. rewrite elem_of_cons. tauto. Qed.

Lemma join_piece (sep : str) (parts : list str) (seg : str) :
  seg ∈ parts -> exists a b, join sep parts = a ++ seg ++ b.
Proof.
  induction parts as [|p rest IH]; intros Hin.
  - by apply elem_of_nil in Hin.
  - apply elem_of_cons in Hin as [->|Hin].
    + destruct rest as [|r rest].
      * exists [], []. simpl. by rewrite app_nil_r.
      * by exists [], (sep ++ join sep (r :: rest)).
    + destruct (IH Hin) as (a & b & E).
      destruct rest as [|r rest]; [by apply elem_of_nil in Hin|].
      exists (p ++ sep ++ a), b.
      change (join sep (p :: r :: rest)) with (p ++ sep ++ join sep (r :: rest)).
      rewrite E. by rewrite <- !app_assoc.
Qed.

(** A part returned by [split] is a piece of the text. *)
Lemma split_char_piece (c : char) (s seg : str) :
  seg ∈ split s [c] -> exists a b, s = a ++ seg ++ b.
Proof.
  intros Hin. destruct (join_piece [c] _ _ Hin) as (a & b & E).
  rewrite join_split_char in E. eauto.
Qed.

Lemma dequote_lacks (response : str) :
  lacks squote (dequote response) /\ lacks dquote (dequote response).
Proof.
  unfold dequote. split.
  - apply replace_char_keeps, replace_char_lacks.
  - apply replace_char_lacks.
Qed.

Lemma dequote_id (s : str) :
  lacks squote s -> lacks dquote s -> dequote s = s.
Proof.
  intros H1 H2. unfold dequote. by rewrite (replace_char_id s squote), replace_char_id.
Qed.

(** The parser is its pure core run after one debug dump. *)
Lemma parse_llm_response_value (response : str) (w : World) :
  value_of (parse_llm_response response w)
  = parse_lines (split (strip (dequote response)) [newline]).
Proof.
  unfold parse_llm_response, bind, debugLog, dequote.
  destruct (debug (cs_config (session w)));
    by destruct (parse_lines _).
Qed.

Lemma parse_llm_response_world (response : str) (w : World) :
  world_of (parse_llm_response response w)
  = world_of (debugLog (DText (dequote response)) w).
Proof.
  unfold parse_llm_response, bind, debugLog, dequote.
  destruct (debug (cs_config (session w)));
    by destruct (parse_lines _).
Qed.

Lemma parse_lines_three (l0 l1 l2 : str) (rest : list str) :
  parse_lines (l0 :: l1 :: l2 :: rest)
  = Ok (mkParsed
          (strip (replace l0 (lit "database:") []))
          (split (strip (replace l1 (lit "genes:") [])) [comma])
          (hd [] (split (strip (replace l2 (lit "load:") [])) [comma]))).
Proof.
  unfold parse_lines, getitem. cbn [nth_error rbind].
  pose proof (split_from_nonempty [comma] 0
                (strip (replace l2 (lit "load:") []))) as Hn.
  unfold split. by destruct (split_from _ _ _).
Qed.

Lemma parse_lines_short (lines : list str) :
  (length lines < 3)%nat ->
  parse_lines lines = Raise index_error.
Proof.
  destruct lines as [|l0 [|l1 [|l2 rest]]]; simpl; intros Hlen; try done. lia.
Qed.

(** What the parser does with the three labelled lines of a well-formed
    response. *)
Lemma parse_well_formed (response lead d g l trail : str) :
  well_formed response lead d g l trail ->
  parse_lines (split (strip (dequote response)) [newline])
  = Ok (mkParsed (strip d)
                 (split (strip g) [comma])
                 (hd [] (split (strip l) [comma]))).
Proof.
  intros [Hshape Hlead Htrail Hd Hg Hl Hdl Hgl Hll]. rewrite Hshape.
  assert (strip (lead ++ lit "database:" ++ d ++ newline ::
                   lit "genes:" ++ g ++ newline :: lit "load:" ++ l ++ trail)
          = lit "database:" ++ d ++ newline ::
              lit "genes:" ++ g ++ newline :: lit "load:" ++ rstrip l) as ->.
  { replace (lead ++ lit "database:" ++ d ++ newline ::
               lit "genes:" ++ g ++ newline :: lit "load:" ++ l ++ trail)
      with (lead ++ (100 :: (lit "atabase:" ++ d ++ newline ::
                               lit "genes:" ++ g ++ newline :: lit "load")
                          ++ 58 :: l) ++ trail)
      by (eval_lits; flatten; reflexivity).
    rewrite strip_padded by done.
    eval_lits. flatten. reflexivity. }
  rewrite app_assoc.
  rewrite split_char_app
    by (apply lacks_app; [by apply lacks_test|done]).
  rewrite app_assoc.
  rewrite split_char_app
    by (apply lacks_app; [by apply lacks_test|done]).
  rewrite split_char_none.
  2:{ apply lacks_app; [by apply lacks_test|].
      destruct (rstrip_piece l) as (a & b & E). rewrite E in Hl.
      by eapply lacks_piece. }
  rewrite parse_lines_three.
  rewrite !replace_label; try done.
  - by rewrite strip_rstrip.
  - destruct (rstrip_piece l) as (a & b & E). rewrite E in Hll.
    by eapply contains_false_piece.
Qed.

Lemma replace_lacks (s old : str) (x : char) :
  lacks x s -> lacks x (replace s old []).
Proof. intros Hs. apply replace_from_lacks; [done|apply not_elem_of_nil]. Qed.

Lemma split_char_keeps (c x : char) (s seg : str) :
  lacks x s -> seg ∈ split s [c] -> lacks x seg.
Proof.
  intros Hs Hin. destruct (split_char_piece _ _ _ Hin) as (a & b & E).
  rewrite E in Hs. by eapply lacks_piece.
Qed.

Lemma hd_split (s sep : str) : hd [] (split s sep) ∈ split s sep.
Proof.
  pose proof (split_from_nonempty sep 0 s) as Hn. unfold split.
  destruct (split_from sep 0 s); [done|by left].
Qed.

(** No field holds a character that all the lines lack. *)
Lemma parse_lines_lacks (lines : list str) (p : ParsedData) (x : char) :
  parse_lines lines = Ok p ->
  (forall line, line ∈ lines -> lacks x line) ->
  lacks x (database p) /\ Forall (lacks x) (genes p) /\ lacks x (load p).
Proof.
  destruct lines as [|l0 [|l1 [|l2 rest]]]; try done.
  rewrite parse_lines_three. intros [= <-] Hall. cbn [database genes load].
  split_and!.
  - apply strip_lacks, replace_lacks, Hall. set_solver.
  - apply Forall_forall. intros seg Hseg.
    eapply split_char_keeps; [|done].
    apply strip_lacks, replace_lacks, Hall. set_solver.
  - eapply split_char_keeps; [|apply hd_split].
    apply strip_lacks, replace_lacks, Hall. set_solver.
Qed.

(** C10: whatever the input text, no field of a parsed response holds a
    single or a double quote: both are deleted from the whole response
    before it is split, so they are gone from the database name, from every
    gene entry and from the load flag. *)
Theorem parsed_fields_lack_quotes (response : str) (w : World) (p : ParsedData)
    (q : char) :
  value_of (parse_llm_response response w) = Ok p ->
  q = squote \/ q = dquote ->
  lacks q (database p) /\ Forall (lacks q) (genes p) /\ lacks q (load p).
Proof.
  rewrite parse_llm_response_value. intros Hp Hq.
  eapply parse_lines_lacks; [done|]. intros line Hline.
  eapply split_char_keeps; [|done]. apply strip_lacks.
  destruct (dequote_lacks response). by destruct Hq as [->| ->].
Qed.

Lemma parsed_fields_lack_quotes_witness :
  lacks squote (lit "ENRICHR")
  /\ Forall (lacks squote) [lit "TP53"; lit "BRCA1"]
  /\ lacks squote (lit "False").
Proof.
  apply (parsed_fields_lack_quotes Scenario.quoted_reply Scenario.world
           (mkParsed (lit "ENRICHR") [lit "TP53"; lit "BRCA1"] (lit "False"))
           squote).
  - vm_compute. reflexivity.
  - by left.
Defined.

Lemma contains_false_blank_cons (sub : str) (a b : char) (s : str) :
  a <> b -> contains (a :: sub) s = false -> contains (a :: sub) (b :: s) = false.
Proof.
  intros Hne Hc. apply contains_false_cons; [|done].
  simpl. by destruct (N.eqb_spec a b).
Qed.

(** The re-joined text of a parsed well-formed response is well-formed. *)
Lemma rejoin_well_formed (response lead d g l trail : str) :
  well_formed response lead d g l trail ->
  let p := mkParsed (strip d) (split (strip g) [comma])
                    (hd [] (split (strip l) [comma])) in
  well_formed (rejoin p) [] (32 :: database p)
    (32 :: join [comma] (genes p)) (32 :: load p) [].
Proof.
  intros Hwf p. pose proof Hwf as [Hshape _ _ Hd Hg Hl Hdl Hgl Hll].
  assert (forall q, q = squote \/ q = dquote ->
            lacks q d /\ lacks q g /\ lacks q l) as Hq.
  { intros q Hq.
    assert (lacks q (dequote response)) as Hlq
      by (destruct (dequote_lacks response); by destruct Hq as [->| ->]).
    rewrite Hshape in Hlq. unfold lacks in *. rewrite !elem_of_app in Hlq.
    rewrite !elem_of_cons, !elem_of_app in Hlq.
    rewrite !elem_of_cons, !elem_of_app in Hlq. tauto. }
  subst p. cbn [database genes load].
  set (flag := hd [] (split (strip l) [comma])).
  assert (flag ∈ split (strip l) [comma]) as Hload by apply hd_split.
  assert (forall x, lacks x l -> lacks x flag) as Hlx
    by (intros x Hx; eapply split_char_keeps; [by apply strip_lacks|done]).
  rewrite join_split_char.
  constructor.
  - cbn [app]. rewrite dequote_id.
    + unfold rejoin. cbn [database genes load]. rewrite join_split_char.
      eval_lits. flatten. reflexivity.
    + unfold rejoin. cbn [database genes load]. rewrite join_split_char.
      destruct (Hq squote) as (? & ? & ?); [by left|].
      repeat first [ apply lacks_app | apply lacks_cons
                   | by apply lacks_test | by apply strip_lacks
                   | by apply Hlx | done ].
    + unfold rejoin. cbn [database genes load]. rewrite join_split_char.
      destruct (Hq dquote) as (? & ? & ?); [by right|].
      repeat first [ apply lacks_app | apply lacks_cons
                   | by apply lacks_test | by apply strip_lacks
                   | by apply Hlx | done ].
  - constructor.
  - constructor.
  - apply lacks_cons; [done|by apply strip_lacks].
  - apply lacks_cons; [done|by apply strip_lacks].
  - apply lacks_cons; [done|by apply Hlx].
  - apply contains_false_blank_cons; [done|by apply strip_contains_false].
  - apply contains_false_blank_cons; [done|by apply strip_contains_false].
  - apply contains_false_blank_cons; [done|].
    destruct (split_char_piece _ _ _ Hload) as (a & b & E).
    apply strip_contains_false in Hll. rewrite E in Hll.
    by eapply contains_false_piece.
Qed.

(** C5: for a well-formed 3-line response the parser's three fields are
    the de-quoted, de-labeled line contents (stripped, the genes split at
    commas, the load flag cut at its first comma), and parsing the text
    re-joined from these fields gives the same structure again, up to
    whitespace around the load flag. *)
Theorem parse_round_trip (response lead d g l trail : str) (w w' : World) :
  well_formed response lead d g l trail ->
  let p := mkParsed (strip d) (split (strip g) [comma])
                    (hd [] (split (strip l) [comma])) in
  value_of (parse_llm_response response w) = Ok p
  /\ exists q,
       value_of (parse_llm_response (rejoin p) w') = Ok q
       /\ database q = database p
       /\ genes q = genes p
       /\ load q = strip (load p)
       /\ same_modulo_whitespace q p.
Proof.
  intros Hwf p. split.
  - rewrite parse_llm_response_value. by apply (parse_well_formed _ lead d g l trail).
  - pose proof (rejoin_well_formed _ _ _ _ _ _ Hwf) as Hwf2.
    cbv zeta in Hwf2. fold p in Hwf2.
    pose proof (parse_well_formed _ _ _ _ _ _ Hwf2) as Hp2.
    rewrite <- parse_llm_response_value with (w := w') in Hp2.
    eexists. split; [exact Hp2|].
    assert (forall s, strip (32 :: s) = strip s) as Hsp
      by (intros s; apply (strip_blank_app [32]); by repeat constructor).
    cbn [database genes load]. rewrite !Hsp.
    assert (strip (strip d) = strip d) as Ed by apply strip_idem.
    assert (split (strip (join [comma] (genes p))) [comma] = genes p) as Eg.
    { subst p. cbn [genes]. by rewrite join_split_char, strip_idem. }
    assert (hd [] (split (strip (load p)) [comma]) = strip (load p)) as El.
    { rewrite split_char_none; [done|]. apply strip_lacks.
      eapply split_char_lacks. apply hd_split. }
    subst p. cbn [database genes load] in *.
    rewrite Ed, Eg, El. do 3 (split; [reflexivity|]).
    unfold same_modulo_whitespace. cbn [database genes load].
    repeat split. apply strip_idem.
Qed.

Lemma parse_round_trip_witness :
  let p := mkParsed (lit "ENRICHR") [lit "TP53"; lit "BRCA1"; lit "EGFR"]
                    (lit "False") in
  value_of (parse_llm_response enrichr_reply Scenario.world) = Ok p
  /\ exists q,
       value_of (parse_llm_response (rejoin p) Scenario.world) = Ok q
       /\ database q = database p
       /\ genes q = genes p
       /\ load q = strip (load p)
       /\ same_modulo_whitespace q p.
Proof.
  apply (parse_round_trip enrichr_reply [] (lit " ENRICHR")
           (lit " TP53,BRCA1,EGFR") (lit " False") [newline]
           Scenario.world Scenario.world).
  constructor; try reflexivity;
    first [ by apply blank_test | by apply lacks_test ].
Defined.

(** A response outside the well-formed ones: deleting the label inside the
    database content exposes the label again, and the second parse then
    deletes what the first one kept. *)
Remark nested_label_not_stable (w w' : World) :
  exists p q,
    value_of (parse_llm_response nested_label_reply w) = Ok p
    /\ value_of (parse_llm_response (rejoin p) w') = Ok q
    /\ database p = lit "database: X"
    /\ database q = lit "X".
Proof.
  rewrite parse_llm_response_value. eexists. eexists.
  split; [vm_compute; reflexivity|]. rewrite parse_llm_response_value.
  split; [vm_compute; reflexivity|]. split; reflexivity.
Qed.

End ParserFacts.
(** ** The Dispatcher *)

Module DispatcherFacts.
Import Py Session Planner GeneDatabaseCaller PyFacts ParserFacts.

Section Dispatch.
Context `{Collaborators}.

Lemma debugLog_done (x : DebugPayload) (w : World) :
  exists w', debugLog x w = Done tt w' /\ session w' = session w.
Proof.
  unfold debugLog. destruct (debug (cs_config (session w))); eauto.
Qed.

Lemma parse_llm_response_session (response : str) (w : World) :
  session (world_of (parse_llm_response response w)) = session w.
Proof.
  rewrite parse_llm_response_world.
  destruct (debugLog_done (DText (dequote response)) w) as (w' & -> & E). done.
Qed.

(** The steps of a run of [route_and_terms] that completes. *)
Lemma route_and_terms_inv (w w1 : World) (f : callable) (gl : list str) :
  route_and_terms w = Done (f, gl) w1 ->
  exists reply wa response steps wb original wc,
    predict (PROMPT_of w) FreshMemory (cs_prompt (session w)) w = Done reply wa
    /\ parse_lines (split (strip (dequote (fst reply))) [newline]) = Ok response
    /\ cs_process (session wa) !! lit "steps" = Some (PList steps)
    /\ database_functions !! select_database (database response) = Some f
    /\ session wb
       = set_process
           (<[lit "database-function" := PFunc f]>
              (<[lit "steps" :=
                   PList (steps ++
                     [ECall (llmCallLog (cs_llm (session w)) (PROMPT_of w)
                               (cs_prompt (session w))
                               (mkDetails (fst reply) (elapsed (snd reply)) (snd reply))
                               response (lit "Select database"))])]>
                 (cs_process (session wa))))
           (session wa)
    /\ (load response = lit "True" /\ loadFromFile wb = Done original wc
        \/ load response <> lit "True" /\ original = genes response /\ wc = wb)
    /\ session w1 = session wc
    /\ gl = truncate_terms original (max_search_terms (cs_config (session wc))).
Proof.
  intros Hr. unfold route_and_terms in Hr. fold (PROMPT_of w) in Hr.
  unfold bind at 1 in Hr. cbn [get_session] in Hr.
  unfold bind at 1 in Hr.
  destruct (predict _ _ _ w) as [reply wa|] eqn:Hp; [|done].
  unfold bind at 1 in Hr.
  destruct (debugLog_done (DText (fst reply)) wa) as (wa1 & Hd1 & Hs1).
  rewrite Hd1 in Hr.
  unfold bind at 1 in Hr.
  pose proof (parse_llm_response_value (fst reply) wa1) as Hv.
  pose proof (parse_llm_response_session (fst reply) wa1) as Hs2.
  destruct (parse_llm_response (fst reply) wa1) as [response wa2|] eqn:Hparse; [|done].
  cbn [value_of world_of] in Hv, Hs2.
  unfold bind at 1 in Hr. unfold process_append at 1 in Hr.
  destruct (cs_process (session wa2) !! lit "steps") as [[|steps|]|] eqn:Hsteps;
    try done.
  unfold bind at 1 in Hr.
  match type of Hr with
  | context [debugLog ?x ?w0] =>
      destruct (debugLog_done x w0) as (wa4 & Hd4 & Hs4); rewrite Hd4 in Hr
  end.
  unfold bind at 1 in Hr. unfold database_functions_getitem at 1 in Hr.
  destruct (database_functions !! select_database (database response))
    as [dbCaller|] eqn:Hdb; [|done].
  cbn [ret] in Hr.
  unfold bind at 1 in Hr. unfold process_setitem, modify at 1 in Hr.
  unfold bind at 1 in Hr.
  match type of Hr with
  | context [with_session ?g wa4] => set (wb := with_session g wa4) in *
  end.
  assert (exists original wc,
             (load response = lit "True" /\ loadFromFile wb = Done original wc
              \/ load response <> lit "True" /\ original = genes response /\ wc = wb)
             /\ (let! chatstatus := get_session in
                 debugLog (DList (truncate_terms original
                                    (max_search_terms (cs_config chatstatus)))) >>
                 ret (dbCaller,
                      truncate_terms original
                        (max_search_terms (cs_config chatstatus))))%turn wc
                = Done (f, gl) w1) as (original & wc & Hload & Hrest).
  { destruct (decide (load response = lit "True")) as [Hl|Hl].
    - destruct (loadFromFile wb) as [original wc|] eqn:Hlf; [|done].
      exists original, wc. split; [by left|done].
    - exists (genes response), wb. split; [by right|done]. }
  clear Hr. unfold bind at 1 in Hrest. cbn [get_session] in Hrest.
  unfold bind at 1 in Hrest.
  match type of Hrest with
  | context [debugLog ?x ?w0] =>
      destruct (debugLog_done x w0) as (w1' & Hd5 & Hs5); rewrite Hd5 in Hrest
  end.
  cbn [ret] in Hrest. injection Hrest as <- <- <-.
  exists reply, wa, response, steps, wb, original, wc.
  split_and!; try done.
  - by rewrite <- Hs1, <- Hs2.
  - subst wb. unfold with_session. cbn [session].
    rewrite Hs4. cbn [with_session session set_process cs_process].
    rewrite Hs2, Hs1. unfold set_process. cbn. done.
Qed.


(** C1, amended: when the handler picked for the turn raises an instance
    of [Exception], the dispatcher's call completes: nothing escapes, the
    log receives an error entry whose message is ["Error occurred while
    searching database: "] followed by the exception text, and the session
    is returned as the handler left it, on top of what the earlier steps
    of the turn did. *)
Theorem handler_exception_contained (w w1 w2 : World) (dbCaller : callable)
    (geneList : list str) (e : exc) :
  route_and_terms w = Done (dbCaller, geneList) w1 ->
  call dbCaller geneList w1 = Fail e w2 ->
  is_Exception e = true ->
  geneDBRetriever w
  = Done (session w2)
         (mkWorld (session w2)
            (sink w2 ++
               [ErrorRecord
                  (lit "Error occurred while searching database: " ++ exc_text e)
                  (lit "geneDatabaseCaller.geneDBRetriever")])
            (stdout w2)).
Proof.
  intros Hprep Hcall Hexc.
  unfold geneDBRetriever, bind. rewrite Hprep. cbn [fst snd].
  unfold call_guarded, bind, try_except. rewrite Hcall, Hexc.
  reflexivity.
Qed.


(** C6: the list handed to the route handler is the original list (the
    parsed genes, or what the file loader returned when the load flag is
    ["True"]) cut to its first [max_search_terms] entries: its length is
    the minimum of the two, it is a prefix of the original, the cut is a
    total operation, and the dispatcher's turn is the guarded call of the
    chosen handler on exactly that list. *)
Theorem entity_list_truncated (w w1 : World) (dbCaller : callable)
    (geneList : list str) :
  route_and_terms w = Done (dbCaller, geneList) w1 ->
  (0 <= max_search_terms (cs_config (session w1)))%Z ->
  exists reply wa response original,
    predict (PROMPT_of w) FreshMemory (cs_prompt (session w)) w = Done reply wa
    /\ parse_lines (split (strip (dequote (fst reply))) [newline]) = Ok response
    /\ (load response = lit "True"
          /\ (exists wb wc, loadFromFile wb = Done original wc)
        \/ load response <> lit "True" /\ original = genes response)
    /\ geneList = take (Z.to_nat (max_search_terms (cs_config (session w1)))) original
    /\ length geneList
       = Nat.min (length original)
                 (Z.to_nat (max_search_terms (cs_config (session w1))))
    /\ geneList `prefix_of` original
    /\ geneDBRetriever w
       = (try_except
            (match dbCaller with
             | queryEnrichr_fn =>
                 queryEnrichr
                   (take (Z.to_nat (max_search_terms (cs_config (session w1))))
                         original)
             | geneOntology_fn =>
                 geneOntology
                   (take (Z.to_nat (max_search_terms (cs_config (session w1))))
                         original)
             end)
            (fun e =>
               errorLog
                 (lit "Error occurred while searching database: " ++ exc_text e)
                 (lit "geneDatabaseCaller.geneDBRetriever"))
          >> get_session)%turn w1.
Proof.
  intros Hr Hmax.
  assert (geneDBRetriever w
          = (try_except
               (match dbCaller with
                | queryEnrichr_fn => queryEnrichr geneList
                | geneOntology_fn => geneOntology geneList
                end)
               (fun e =>
                  errorLog
                    (lit "Error occurred while searching database: " ++ exc_text e)
                    (lit "geneDatabaseCaller.geneDBRetriever"))
             >> get_session)%turn w1) as Hrun.
  { unfold geneDBRetriever. unfold bind at 1. rewrite Hr. cbn [fst snd].
    unfold call_guarded, call, error_message. by destruct dbCaller. }
  destruct (route_and_terms_inv _ _ _ _ Hr)
    as (reply & wa & response & steps & wb & original & wc
        & Hp & Hparse & _ & _ & _ & Hload & Hs & ->).
  rewrite Hs in *. set (n := max_search_terms (cs_config (session wc))) in *.
  assert (truncate_terms original n = take (Z.to_nat n) original) as Hcut.
  { unfold truncate_terms, slice_to.
    destruct (Z.ltb_spec n (Z.of_nat (length original))).
    - destruct (Z.leb_spec 0 n); [done|lia].
    - by rewrite take_ge by lia. }
  rewrite Hcut in *.
  exists reply, wa, response, original. split_and!; try done.
  - destruct Hload as [(? & ?)|(? & ? & ?)]; [left|right]; eauto.
  - rewrite length_take. lia.
  - apply prefix_take.
Qed.

(** C7: a response that, with its quotes and surrounding whitespace
    removed, splits into fewer than three lines makes the parser raise
    [IndexError]; the dispatcher calls the parser outside its [try], so the
    error leaves [geneDBRetriever] as well and no parsed decision is
    made up. *)
Theorem too_few_lines_raise (response : str) :
  (length (split (strip (dequote response)) [newline]) < 3)%nat ->
  (forall w, value_of (parse_llm_response response w) = Raise index_error)
  /\ (forall w acct w1,
        predict (PROMPT_of w) FreshMemory (cs_prompt (session w)) w
        = Done (response, acct) w1 ->
        value_of (geneDBRetriever w) = Raise index_error).
Proof.
  intros Hlen.
  assert (forall w, value_of (parse_llm_response response w) = Raise index_error)
    as Hparse.
  { intros w. rewrite parse_llm_response_value. by apply parse_lines_short. }
  split; [done|]. intros w acct w1 Hp.
  unfold geneDBRetriever, route_and_terms. unfold PROMPT_of in Hp.
  unfold bind at 1. unfold bind at 1. cbn [get_session].
  unfold bind at 1. rewrite Hp. cbn [fst].
  unfold bind at 1.
  destruct (debugLog_done (DText response) w1) as (w2 & -> & _).
  unfold bind at 1. specialize (Hparse w2).
  destruct (parse_llm_response response w2) as [p w3|e w3];
    cbn [value_of] in *; [discriminate|by injection Hparse as ->].
Qed.

(** C9, amended: the dispatcher's own steps up to the handler call, the
    oracle and the file loader leaving [process] alone, add exactly one
    entry to [process.steps], after the entries already there, set the key
    ["database-function"] and change nothing else in [process]; the
    planner does not append: it replaces [process] by the mapping of
    ["type"] to ["PLANNER"] and of ["stages"] to the planned stages. *)
Theorem process_discipline :
  (forall t m q w r w', predict t m q w = Done r w' ->
     cs_process (session w') = cs_process (session w)) ->
  (forall w r w', loadFromFile w = Done r w' ->
     cs_process (session w') = cs_process (session w)) ->
  (forall w dbCaller geneList w1,
     route_and_terms w = Done (dbCaller, geneList) w1 ->
     exists steps entry,
       cs_process (session w) !! lit "steps" = Some (PList steps)
       /\ log_purpose entry = lit "Select database"
       /\ cs_process (session w1)
          = <[lit "database-function" := PFunc dbCaller]>
              (<[lit "steps" := PList (steps ++ [ECall entry])]>
                 (cs_process (session w))))
  /\ (forall w cs w',
        planner w = Done cs w' ->
        cs = session w'
        /\ cs_process cs
           = <[lit "type" := PStr (lit "PLANNER")]>
               {[lit "stages" := PList (map EStage (cs_planned cs))]}).
Proof.
  intros Hpredict Hloader. split.
  - intros w f gl w1 Hr.
    destruct (route_and_terms_inv _ _ _ _ Hr)
      as (reply & wa & response & steps & wb & original & wc
          & Hp & _ & Hsteps & _ & Hwb & Hload & Hs & _).
    apply Hpredict in Hp. rewrite Hp in *.
    exists steps.
    eexists (llmCallLog _ _ _ _ _ (lit "Select database")).
    split; [done|]. split; [reflexivity|].
    rewrite Hs.
    destruct Hload as [(_ & Hl)|(_ & _ & ->)].
    + apply Hloader in Hl. rewrite Hl, Hwb. done.
    + rewrite Hwb. done.
  - intros w cs w' Hr. unfold planner in Hr.
    unfold bind at 1 in Hr. cbn [get_session] in Hr.
    unfold bind at 1 in Hr. unfold databases_getitem in Hr.
    destruct (cs_databases (session w) !! lit "RAG"); [|done].
    unfold bind at 1 in Hr.
    destruct (predict _ _ _ w) as [reply wa|]; [|done].
    unfold bind at 1 in Hr. unfold print_if_debug at 1 in Hr.
    unfold bind at 1 in Hr.
    destruct (response2processes _) as [processes|]; [|by destruct (debug _)].
    destruct (debug _); cbn in Hr; injection Hr as <- <-; done.
Qed.

End Dispatch.

(** The scenario of the spec: the Enrichr handler raises
    [ValueError("timeout")]. *)
Lemma handler_exception_contained_witness :
  exists w2,
    geneDBRetriever (H := Scenario.collaborators) Scenario.world
    = Done (session w2)
           (mkWorld (session w2)
              (sink w2 ++
                 [ErrorRecord
                    (lit "Error occurred while searching database: "
                       ++ lit "timeout")
                    (lit "geneDatabaseCaller.geneDBRetriever")])
              (stdout w2)).
Proof.
  eexists.
  eapply (handler_exception_contained (H := Scenario.collaborators)
            Scenario.world _ _ queryEnrichr_fn
            [lit "TP53"; lit "BRCA1"] Scenario.timeout).
  - vm_compute. reflexivity.
  - vm_compute. reflexivity.
  - reflexivity.
Defined.



Lemma entity_list_truncated_witness :
  let w1 := world_of (route_and_terms (H := Scenario.collaborators) Scenario.world) in
  let geneList := [lit "TP53"; lit "BRCA1"] in
  exists reply wa response original,
    predict (Collaborators := Scenario.collaborators)
      (PROMPT_of (H := Scenario.collaborators) Scenario.world) FreshMemory
      (cs_prompt (session Scenario.world)) Scenario.world = Done reply wa
    /\ parse_lines (split (strip (dequote (fst reply))) [newline]) = Ok response
    /\ (load response = lit "True"
          /\ (exists wb wc,
                loadFromFile (Collaborators := Scenario.collaborators) wb
                = Done original wc)
        \/ load response <> lit "True" /\ original = genes response)
    /\ geneList = take (Z.to_nat (max_search_terms (cs_config (session w1)))) original
    /\ length geneList
       = Nat.min (length original)
                 (Z.to_nat (max_search_terms (cs_config (session w1))))
    /\ geneList `prefix_of` original
    /\ geneDBRetriever (H := Scenario.collaborators) Scenario.world
       = (try_except
            (queryEnrichr (Collaborators := Scenario.collaborators)
               (take (Z.to_nat (max_search_terms (cs_config (session w1))))
                     original))
            (fun e =>
               errorLog
                 (lit "Error occurred while searching database: " ++ exc_text e)
                 (lit "geneDatabaseCaller.geneDBRetriever"))
          >> get_session)%turn w1.
Proof.
  apply (entity_list_truncated (H := Scenario.collaborators) Scenario.world
           (world_of (route_and_terms (H := Scenario.collaborators) Scenario.world))
           queryEnrichr_fn [lit "TP53"; lit "BRCA1"]).
  - vm_compute. reflexivity.
  - vm_compute. discriminate.
Defined.

Lemma too_few_lines_raise_witness :
  value_of (parse_llm_response Scenario.one_line_reply Scenario.world)
  = Raise index_error
  /\ value_of (geneDBRetriever (H := Scenario.terse_collaborators) Scenario.world)
     = Raise index_error.
Proof.
  assert (length (split (strip (dequote Scenario.one_line_reply)) [newline]) < 3)%nat
    as Hlen by (vm_compute; lia).
  destruct (too_few_lines_raise (H := Scenario.terse_collaborators)
              Scenario.one_line_reply Hlen) as [Hparse Hturn].
  split; [apply Hparse|].
  apply (Hturn Scenario.world Scenario.no_accounting Scenario.world).
  reflexivity.
Defined.

(** C1, as written, fails: not every exception is caught.  A handler that
    raises [SystemExit] ends the dispatcher's call with that exception,
    and no error entry is written. *)
Lemma handler_exception_can_escape :
  ~ (forall (H : Collaborators) (w w1 w2 : World) (dbCaller : callable)
            (geneList : list str) (e : exc),
       route_and_terms w = Done (dbCaller, geneList) w1 ->
       call dbCaller geneList w1 = Fail e w2 ->
       geneDBRetriever w
       = Done (session w2)
              (mkWorld (session w2)
                 (sink w2 ++
                    [ErrorRecord
                       (lit "Error occurred while searching database: "
                          ++ exc_text e)
                       (lit "geneDatabaseCaller.geneDBRetriever")])
                 (stdout w2))).
Proof.
  intros Hclaim.
  pose (w1 := world_of (route_and_terms (H := Scenario.exiting_collaborators)
                          Scenario.world)).
  assert (geneDBRetriever (H := Scenario.exiting_collaborators) Scenario.world
          = Fail Scenario.exit_request w1) as Hrun
    by (vm_compute; reflexivity).
  rewrite (Hclaim Scenario.exiting_collaborators Scenario.world w1 w1
             queryEnrichr_fn [lit "TP53"; lit "BRCA1"] Scenario.exit_request)
    in Hrun.
  - discriminate Hrun.
  - vm_compute. reflexivity.
  - vm_compute. reflexivity.
Qed.

(** C9, as written, fails: the planner assigns a fresh mapping to
    [process], so a step recorded earlier in the turn is gone afterwards. *)
Lemma planner_drops_steps :
  ~ append_only (planner (H := Scenario.collaborators)).
Proof.
  intros Hkept.
  assert (exists cs w',
             planner (H := Scenario.collaborators) Scenario.world = Done cs w'
             /\ cs_process (session w') !! lit "steps" = None)
    as (cs & w' & Hrun & Hnone).
  { eexists _, _. split; vm_compute; reflexivity. }
  assert (cs_process (session Scenario.world) !! lit "steps"
          = Some (PList [Scenario.earlier_step])) as Hbefore
    by (vm_compute; reflexivity).
  destruct (Hkept _ _ _ Hrun _ _ Hbefore) as [l' Hafter].
  rewrite Hnone in Hafter. discriminate.
Qed.

Lemma process_discipline_witness :
  let w1 := world_of (route_and_terms (H := Scenario.collaborators) Scenario.world) in
  exists steps entry,
    cs_process (session Scenario.world) !! lit "steps" = Some (PList steps)
    /\ log_purpose entry = lit "Select database"
    /\ cs_process (session w1)
       = <[lit "database-function" := PFunc queryEnrichr_fn]>
           (<[lit "steps" := PList (steps ++ [ECall entry])]>
              (cs_process (session Scenario.world))).
Proof.
  assert (forall t m q w r w',
            predict (Collaborators := Scenario.collaborators) t m q w = Done r w' ->
            cs_process (session w') = cs_process (session w)) as Hpredict.
  { intros t m q w r w' Hp. destruct m; cbn in Hp; by injection Hp as _ <-. }
  assert (forall w r w',
            loadFromFile (Collaborators := Scenario.collaborators) w = Done r w' ->
            cs_process (session w') = cs_process (session w)) as Hloader.
  { intros w r w' Hl. cbn in Hl. by injection Hl as _ <-. }
  destruct (process_discipline (H := Scenario.collaborators) Hpredict Hloader)
    as [Hdispatch _].
  apply (Hdispatch Scenario.world queryEnrichr_fn [lit "TP53"; lit "BRCA1"]).
  vm_compute. reflexivity.
Defined.

End DispatcherFacts.

(** ** More on splitting at a marker *)

Module SplitFacts.
Import Py PyFacts.

Lemma split_from_skip (sep a s : str) :
  split_from sep (length a) (a ++ s) = split_from sep 0 s.
Proof. induction a as [|x a IH]; [by destruct s|done]. Qed.

(** The first part of a split is a prefix of the text. *)
Lemma split_head_prefix (sep s seg : str) (rest : list str) :
  split_from sep 0 s = seg :: rest -> exists b, s = seg ++ b.
Proof.
  revert seg rest. induction s as [|c s IH]; intros seg rest.
  - intros [= <- <-]. by exists [].
  - simpl. destruct (startswith (c :: s) sep).
    + intros [= <- <-]. by exists (c :: s).
    + destruct (split_from sep 0 s) as [|seg' rest'] eqn:E.
      * intros [= <- <-]. by destruct (split_from_nonempty sep 0 s).
      * intros [= <- <-]. destruct (IH _ _ eq_refl) as [b ->]. by exists b.
Qed.

(** Every part of a split is a piece of the text. *)
Lemma split_from_piece (sep : str) (k : nat) (s seg : str) :
  seg ∈ split_from sep k s -> exists a b, s = a ++ seg ++ b.
Proof.
  revert k seg. induction s as [|c s IH]; intros k seg Hin.
  - apply list_elem_of_singleton in Hin as ->. by exists [], [].
  - simpl in Hin. destruct k as [|k].
    + destruct (startswith (c :: s) sep).
      * apply elem_of_cons in Hin as [->|Hin]; [by exists [], (c :: s)|].
        destruct (IH _ _ Hin) as (a & b & ->). by exists (c :: a), b.
      * destruct (split_from sep 0 s) as [|seg' rest'] eqn:E;
          [by destruct (split_from_nonempty sep 0 s)|].
        apply elem_of_cons in Hin as [->|Hin].
        -- destruct (split_head_prefix _ _ _ _ E) as [b ->]. by exists [], b.
        -- destruct (IH 0%nat seg) as (a & b & ->); [rewrite E; by right|].
           by exists (c :: a), b.
    + destruct (IH _ _ Hin) as (a & b & ->). by exists (c :: a), b.
Qed.

(** [sep.join(s.split(sep))] is [s]. *)
Lemma join_split_bounded (sep : str) (n : nat) (s : str) :
  sep <> [] -> (length s <= n)%nat -> join sep (split s sep) = s.
Proof.
  intros Hsep. unfold split. revert s.
  induction n as [|n IH]; intros s Hlen.
  - destruct s; [done|simpl in Hlen; lia].
  - destruct s as [|c s]; [done|]. cbn [split_from].
    destruct (startswith (c :: s) sep) eqn:Est.
    + apply startswith_inv in Est as [t Et].
      destruct sep as [|c' sep']; [done|]. injection Et as <- ->.
      replace (length (c :: sep') - 1)%nat with (length sep') by (simpl; lia).
      rewrite split_from_skip.
      pose proof (split_from_nonempty (c :: sep') 0 t) as Hne.
      assert (join (c :: sep') (split_from (c :: sep') 0 t) = t) as Ht.
      { apply IH. simpl in Hlen. rewrite length_app in Hlen. lia. }
      destruct (split_from (c :: sep') 0 t) as [|seg rest]; [done|].
      change (join (c :: sep') ([] :: seg :: rest))
        with ((c :: sep') ++ join (c :: sep') (seg :: rest)).
      by rewrite Ht.
    + pose proof (split_from_nonempty sep 0 s) as Hne.
      assert (join sep (split_from sep 0 s) = s) as Hs
        by (apply IH; simpl in Hlen; lia).
      destruct (split_from sep 0 s) as [|seg rest]; [done|].
      rewrite <- Hs. by destruct rest.
Qed.

Lemma join_split (sep s : str) : sep <> [] -> join sep (split s sep) = s.
Proof. intros Hsep. by apply (join_split_bounded sep (length s)). Qed.

Lemma startswith_tail_length (sep s : str) (x : char) :
  x ∉ sep -> startswith (s ++ [x]) sep = true -> (length sep <= length s)%nat.
Proof.
  revert s. induction sep as [|a sep IH]; intros s Hx Hst; [simpl; lia|].
  apply not_elem_of_cons in Hx as [Hxa Hx].
  destruct s as [|c s]; simpl in Hst.
  - apply andb_true_iff in Hst as [Hax _]. apply N.eqb_eq in Hax. congruence.
  - apply andb_true_iff in Hst as [_ Hst]. simpl. apply IH in Hst; [lia|done].
Qed.

(** A closing character that the separator lacks stays at the end of the
    last part. *)
Lemma split_last_tail (sep : str) (x : char) (k : nat) (s : str) :
  sep <> [] -> x ∉ sep -> (k <= length s)%nat ->
  exists y, last (split_from sep k (s ++ [x])) = Some (y ++ [x]).
Proof.
  intros Hsep Hx. revert k. induction s as [|c s IH]; intros k Hk.
  - assert (k = 0%nat) as -> by (simpl in Hk; lia).
    exists []. cbn [app split_from].
    destruct sep as [|a sep]; [done|]. apply not_elem_of_cons in Hx as [Hxa _].
    simpl. destruct (N.eqb_spec a x); [congruence|done].
  - cbn [app split_from]. destruct k as [|k].
    + destruct (startswith (c :: s ++ [x]) sep) eqn:Est.
      * apply (startswith_tail_length sep (c :: s) x Hx) in Est.
        destruct (IH (length sep - 1)%nat) as [y Hy]; [simpl in Est; lia|].
        exists y. rewrite <- Hy.
        pose proof (split_from_nonempty sep (length sep - 1) (s ++ [x])) as Hne.
        by destruct (split_from sep (length sep - 1) (s ++ [x])).
      * destruct (IH 0%nat) as [y Hy]; [lia|].
        destruct (split_from sep 0 (s ++ [x])) as [|seg rest]; [done|].
        destruct rest as [|r rest].
        -- injection Hy as ->. by exists (c :: y).
        -- exists y. by rewrite <- Hy.
    + apply IH. simpl in Hk. lia.
Qed.

End SplitFacts.

(** ** More on the Stage Decomposer *)

Module DecomposerFacts.
Import Py Re Session Planner PyFacts ReFacts PlannerFacts ParserFacts SplitFacts.

Lemma until_newline_lacks (s g : str) :
  until_newline s = Some g -> lacks newline g.
Proof.
  unfold lacks. revert g. induction s as [|x s IH]; intros g; simpl; [done|].
  destruct (N.eqb_spec x newline) as [->|Hne].
  - intros [= <-]. apply not_elem_of_nil.
  - destruct (until_newline s) as [g'|]; [|done].
    intros [= <-]. apply not_elem_of_cons. split; [congruence|by apply IH].
Qed.

Lemma findall_from_lacks (k : nat) (s g : str) :
  g ∈ findall_from k s -> lacks newline g.
Proof.
  revert k. induction s as [|x s IH]; intros k Hin.
  - by apply elem_of_nil in Hin.
  - simpl in Hin. destruct k as [|k]; [|by eapply IH].
    destruct (match_here (x :: s)) as [g'|] eqn:E; [|by eapply IH].
    apply elem_of_cons in Hin as [->|Hin]; [|by eapply IH].
    unfold match_here in E. destruct (startswith (x :: s) prompt_marker); [|done].
    by eapply until_newline_lacks.
Qed.

(** Either every segment that names a module has a prompt line, or one of
    them has none. *)
Lemma segments_checked (segs : list str) :
  (forall seg, seg ∈ segs -> found_modules seg <> [] -> prompt_line seg)
  \/ (exists seg, seg ∈ segs /\ found_modules seg <> [] /\ ~ prompt_line seg).
Proof.
  induction segs as [|seg segs [IH|(bad & Hin & Hfm & Hnp)]].
  - left. intros seg Hin. by apply elem_of_nil in Hin.
  - destruct (found_modules seg) as [|m fm] eqn:Efm.
    + left. intros s Hs Hf. apply elem_of_cons in Hs as [->|Hs]; [congruence|auto].
    + destruct (findall_prompt seg) as [|p0 ps] eqn:Ef.
      * right. exists seg. split; [by left|]. split; [by rewrite Efm|].
        rewrite prompt_line_findall, Ef. intros Hn. by apply Hn.
      * left. intros s Hs Hf. apply elem_of_cons in Hs as [->|Hs]; [|auto].
        apply prompt_line_findall. by rewrite Ef.
  - right. exists bad. split; [by right|done].
Qed.

Lemma response2processes_inv (response : str) (ps : list Stage) :
  response2processes response = Ok ps ->
  ps = emitted 0 (split response step_marker)
  /\ (forall seg, seg ∈ split response step_marker ->
        found_modules seg <> [] -> prompt_line seg).
Proof.
  intros Hr. unfold response2processes in Hr. cbn zeta in Hr.
  destruct (segments_checked (split response step_marker))
    as [Hall|(bad & Hin & Hfm & Hnp)].
  - rewrite stages_loop_ok in Hr by done. by injection Hr as <-.
  - by rewrite (stages_loop_fail _ _ _ bad) in Hr.
Qed.

Lemma emitted_prompt (i : nat) (segs : list str) (s : Stage) :
  s ∈ emitted i segs ->
  prompt s = lit "/force " ++ module s ++ lit " "
             ++ default [] (head (findall_prompt (description s))).
Proof.
  revert i. induction segs as [|seg segs IH]; intros i Hin.
  - by apply elem_of_nil in Hin.
  - cbn [emitted] in Hin. apply elem_of_app in Hin as [Hin|Hin]; [|by eapply IH].
    unfold stage_records in Hin.
    by apply list_elem_of_fmap in Hin as (m & -> & _).
Qed.

Lemma decomposer_outcome_cases (response : str) :
  (response2processes response = Ok (emitted 0 (split response step_marker))
   /\ forall seg, seg ∈ split response step_marker ->
        found_modules seg <> [] -> prompt_line seg)
  \/ (response2processes response = Raise index_error
      /\ exists seg, seg ∈ split response step_marker
                     /\ found_modules seg <> [] /\ ~ prompt_line seg).
Proof.
  destruct (segments_checked (split response step_marker))
    as [Hall|(bad & Hin & Hfm & Hnp)].
  - left. split; [|done]. unfold response2processes. cbn zeta.
    by rewrite stages_loop_ok.
  - right. split; [|by exists bad]. unfold response2processes. cbn zeta.
    by eapply stages_loop_fail.
Qed.

(** The decomposer has two outcomes only: it returns, exactly when every
    segment that names a module has a prompt line, and otherwise raises
    [IndexError]. *)
Theorem decomposer_outcome (response : str) :
  let segs := split response step_marker in
  (response2processes response = Ok (emitted 0 segs)
   /\ forall seg, seg ∈ segs -> found_modules seg <> [] -> prompt_line seg)
  \/ (response2processes response = Raise index_error
      /\ exists seg, seg ∈ segs /\ found_modules seg <> [] /\ ~ prompt_line seg).
Proof. intros segs. apply decomposer_outcome_cases. Qed.

(** Whenever the decomposer returns, each record carries a module of the
    vocabulary that occurs in its description, the description is the
    segment its [order] numbers, and the prompt is ["/force "], the module,
    a space and the first prompt text of that segment, which holds no
    newline. *)
Theorem decomposer_records (response : str) (ps : list Stage) (s : Stage) :
  response2processes response = Ok ps ->
  s ∈ ps ->
  module s ∈ modules
  /\ contains (module s) (description s) = true
  /\ split response step_marker !! order s = Some (description s)
  /\ exists p0,
       head (findall_prompt (description s)) = Some p0
       /\ lacks newline p0
       /\ prompt s = lit "/force " ++ module s ++ lit " " ++ p0.
Proof.
  intros Hr Hin. apply response2processes_inv in Hr as [-> Hall].
  destruct (emitted_origin _ _ _ Hin) as (seg & Hl & _ & Hm & Hd).
  rewrite Nat.sub_0_r in Hl. subst seg.
  unfold found_modules in Hm. apply list_elem_of_filter in Hm as [Hc Hmod].
  split_and!; try done.
  assert (prompt_line (description s)) as Hp.
  { apply Hall.
    - by eapply list_elem_of_lookup_2.
    - intros Hnil. unfold found_modules in Hnil.
      assert (module s ∈ filter (fun m => contains m (description s) = true) modules)
        as Hf by (by apply list_elem_of_filter).
      rewrite Hnil in Hf. by apply elem_of_nil in Hf. }
  apply prompt_line_findall in Hp.
  pose proof (emitted_prompt _ _ _ Hin) as Hprompt.
  destruct (findall_prompt (description s)) as [|p0 rest] eqn:Ef; [done|].
  exists p0. split_and!; [done| |done].
  apply (findall_from_lacks 0 (description s)).
  unfold findall_prompt in Ef. rewrite Ef. by left.
Qed.

(** A response in which no module of the vocabulary occurs yields no stage
    and no error, whatever markers it holds; so does the empty response. *)
Theorem no_module_no_stage (response : str) :
  found_modules response = [] -> response2processes response = Ok [].
Proof.
  intros Hnone.
  assert (forall seg, seg ∈ split response step_marker -> found_modules seg = [])
    as Hsegs.
  { intros seg Hin. destruct (split_from_piece _ _ _ _ Hin) as (a & b & E).
    unfold found_modules in *.
    destruct (filter (fun m => contains m seg = true) modules)
      as [|m fm] eqn:Ef; [done|].
    assert (m ∈ filter (fun m => contains m seg = true) modules) as Hm
      by (rewrite Ef; by left).
    apply list_elem_of_filter in Hm as [Hc Hmod].
    assert (m ∈ filter (fun m => contains m response = true) modules) as Hr.
    { apply list_elem_of_filter. split; [|done].
      apply contains_inv in Hc as (a' & b' & ->). rewrite E.
      replace (a ++ (a' ++ m ++ b') ++ b) with ((a ++ a') ++ m ++ (b' ++ b))
        by (by rewrite <- !app_assoc).
      apply contains_intro. }
    rewrite Hnone in Hr. by apply elem_of_nil in Hr. }
  unfold response2processes. cbn zeta.
  rewrite stages_loop_ok.
  - f_equal. simpl. generalize 0%nat.
    induction (split response step_marker) as [|seg segs IH]; intros i; [done|].
    cbn [emitted]. rewrite stage_records_nil by (apply Hsegs; by left).
    apply IH. intros s Hs. apply Hsegs. by right.
  - intros seg Hin Hfm. by rewrite Hsegs in Hfm.
Qed.

Lemma no_module_no_stage_witness :
  response2processes (lit "**Step 1** think about it" ++ [newline]) = Ok [].
Proof. apply no_module_no_stage. vm_compute. reflexivity. Defined.

(** Splitting at the step marker loses nothing: the segments joined by the
    marker are the response again. *)
Theorem segments_rejoin (response : str) :
  join step_marker (split response step_marker) = response.
Proof. by apply join_split. Qed.

Lemma decomposer_records_witness :
  let s := mkStage 1 (lit "RAG") (lit "/force RAG find genes")
             (lit "0** ... RAG ... Prompt: find genes" ++ [newline; newline]) in
  module s ∈ modules
  /\ contains (module s) (description s) = true
  /\ split two_step_plan step_marker !! order s = Some (description s)
  /\ exists p0,
       head (findall_prompt (description s)) = Some p0
       /\ lacks newline p0
       /\ prompt s = lit "/force " ++ module s ++ lit " " ++ p0.
Proof.
  apply (decomposer_records two_step_plan
           [ mkStage 1 (lit "RAG") (lit "/force RAG find genes")
               (lit "0** ... RAG ... Prompt: find genes" ++ [newline; newline]);
             mkStage 2 (lit "WRITE") (lit "/force WRITE summarize")
               (lit "1** ... WRITE ... Prompt: summarize" ++ [newline; newline]) ]).
  - vm_compute. reflexivity.
  - by left.
Defined.

(** A segment that ends in a newline and holds the text ["Prompt: "] has a
    prompt line. *)
Lemma marker_before_line_end (y : str) :
  contains prompt_marker (y ++ [newline]) = true -> prompt_line (y ++ [newline]).
Proof.
  intros Hc. apply contains_inv in Hc as (a & b & E).
  destruct (decide (b = [])) as [->|Hb].
  - exfalso. rewrite app_nil_r in E.
    change prompt_marker with (lit "Prompt:" ++ [32]) in E.
    rewrite app_assoc in E. by apply app_inj_tail in E as [_ ?].
  - destruct (exists_last Hb) as (b0 & l & ->).
    rewrite !app_assoc in E. apply app_inj_tail in E as [Hy <-].
    exists a, b0, []. rewrite Hy. by rewrite <- !app_assoc.
Qed.

(** The planner hands the decomposer the oracle's text with two newlines
    appended; in the last segment of such a text the bare ["Prompt: "]
    marker is enough for a prompt line, also when the oracle's text ends
    right after the prompt. *)
Theorem last_segment_line_end (reply seg : str) :
  last (split (reply ++ [newline; newline]) step_marker) = Some seg ->
  contains prompt_marker seg = true ->
  prompt_line seg.
Proof.
  intros Hlast Hc.
  destruct (split_last_tail step_marker newline 0 (reply ++ [newline]))
    as [y Hy]; [done|by apply lacks_test|lia|].
  rewrite <- app_assoc in Hy. cbn [app] in Hy. unfold split in Hlast.
  rewrite Hy in Hlast. injection Hlast as <-. by apply marker_before_line_end.
Qed.

Lemma last_segment_line_end_witness :
  prompt_line (lit "1** RAG Prompt: find genes" ++ [newline; newline]).
Proof.
  apply (last_segment_line_end (lit "**Step 1** RAG Prompt: find genes")).
  - vm_compute. reflexivity.
  - vm_compute. reflexivity.
Defined.

End DecomposerFacts.

(** ** More on the Response Parser *)

Module ParserMoreFacts.
Import Py Session GeneDatabaseCaller PyFacts ParserFacts.

(** The parser asks for three lines and nothing else: it returns exactly
    when the response, its quotes deleted and its ends stripped, holds at
    least two newlines; the labels need not be there. *)
Theorem parse_returns_iff (response : str) (w : World) :
  (exists p, value_of (parse_llm_response response w) = Ok p)
  <-> (2 <= count (strip (dequote response)) [newline])%nat.
Proof.
  rewrite parse_llm_response_value.
  pose proof (split_length_count [newline] 0 (strip (dequote response))) as Hlen.
  fold (split (strip (dequote response)) [newline]) in Hlen.
  fold (count (strip (dequote response)) [newline]) in Hlen.
  split.
  - intros [p Hp].
    destruct (split (strip (dequote response)) [newline])
      as [|l0 [|l1 [|l2 rest]]]; try done.
    simpl in Hlen. lia.
  - intros Hc.
    destruct (split (strip (dequote response)) [newline])
      as [|l0 [|l1 [|l2 rest]]]; simpl in Hlen; try lia.
    rewrite parse_lines_three. eauto.
Qed.

(** The shape of every parsed decision: the database name carries no
    whitespace at its ends, there is at least one gene entry (an empty genes
    line gives one empty entry), no gene entry and no load flag holds a
    comma, and no field holds a newline. *)
Theorem parsed_shape (response : str) (w : World) (p : ParsedData) :
  value_of (parse_llm_response response w) = Ok p ->
  strip (database p) = database p
  /\ genes p <> []
  /\ Forall (fun g => lacks comma g /\ lacks newline g) (genes p)
  /\ lacks comma (load p)
  /\ lacks newline (database p)
  /\ lacks newline (load p).
Proof.
  rewrite parse_llm_response_value. intros Hp.
  assert (forall line, line ∈ split (strip (dequote response)) [newline] ->
            lacks newline line) as Hnl
    by (intros line Hl; by eapply split_char_lacks).
  destruct (parse_lines_lacks _ _ newline Hp Hnl) as (Hd & Hg & Hl).
  destruct (split (strip (dequote response)) [newline])
    as [|l0 [|l1 [|l2 rest]]]; try done.
  rewrite parse_lines_three in Hp. injection Hp as <-.
  cbn [database genes load] in *. split_and!; try done.
  - apply strip_idem.
  - apply split_from_nonempty.
  - rewrite Forall_forall in Hg. apply Forall_forall. intros g Hin.
    split; [by eapply split_char_lacks|by apply Hg].
  - eapply split_char_lacks. apply hd_split.
Qed.

Lemma parsed_shape_witness :
  let p := mkParsed (lit "ENRICHR") [lit "TP53"; lit "BRCA1"; lit "EGFR"]
                    (lit "False") in
  strip (database p) = database p
  /\ genes p <> []
  /\ Forall (fun g => lacks comma g /\ lacks newline g) (genes p)
  /\ lacks comma (load p)
  /\ lacks newline (database p)
  /\ lacks newline (load p).
Proof.
  apply (parsed_shape enrichr_reply Scenario.world).
  vm_compute. reflexivity.
Defined.

End ParserMoreFacts.

(** ** The planner's turn *)

Module PlannerTurnFacts.
Import Py Re Session Planner PyFacts ReFacts PlannerFacts DecomposerFacts.

Section Turn.
Context `{Collaborators}.

(** The steps of a run of [planner] once the oracle has answered. *)
Lemma planner_after_oracle (w w1 : World) (h reply : str) (acct : Accounting) :
  cs_databases (session w) !! lit "RAG" = Some h ->
  predict plannerTemplate SessionMemory (cs_prompt (session w)) w
  = Done (reply, acct) w1 ->
  let response := reply ++ [newline; newline] in
  let printed :=
    if debug (cs_config (session w1))
    then mkWorld (session w1) (sink w1) (stdout w1 ++ [response])
    else w1 in
  planner w
  = match response2processes response with
    | Ok processes =>
        let cs :=
          set_process
            (<[lit "type" := PStr (lit "PLANNER")]>
               {[lit "stages" := PList (map EStage processes)]})
            (set_planned processes (session w1)) in
        Done cs (mkWorld cs (sink printed) (stdout printed))
    | Raise e => Fail e printed
    end.
Proof.
  intros Hrag Hp response printed. unfold planner.
  unfold bind at 1. cbn [get_session].
  unfold bind at 1. unfold databases_getitem. rewrite Hrag.
  unfold bind at 1. rewrite Hp. cbn [fst]. fold response.
  unfold bind at 1. unfold print_if_debug.
  subst printed. destruct (debug (cs_config (session w1)));
    unfold bind, lift; destruct (response2processes response); reflexivity.
Qed.

(** The planner reads [chatstatus['databases']['RAG']] before anything
    else: without that key it raises [KeyError], the oracle is not
    consulted and nothing is changed. *)
Theorem planner_needs_rag (w : World) :
  cs_databases (session w) !! lit "RAG" = None ->
  planner w = Fail (mkExc KeyError (lit "'RAG'")) w.
Proof.
  intros Hrag. unfold planner. unfold bind at 1. cbn [get_session].
  unfold bind at 1. unfold databases_getitem. by rewrite Hrag.
Qed.

(** The planner contains no error: when a segment of the plan names a
    module without a prompt line, the [IndexError] of the decomposer leaves
    the planner, and the session is as the oracle left it; neither
    [planned] nor [process] has been assigned. *)
Theorem planner_failure_leaves_session (w w1 : World) (h reply seg : str)
    (acct : Accounting) :
  cs_databases (session w) !! lit "RAG" = Some h ->
  predict plannerTemplate SessionMemory (cs_prompt (session w)) w
  = Done (reply, acct) w1 ->
  seg ∈ split (reply ++ [newline; newline]) step_marker ->
  found_modules seg <> [] ->
  ~ prompt_line seg ->
  exists w',
    planner w = Fail index_error w'
    /\ session w' = session w1
    /\ sink w' = sink w1.
Proof.
  intros Hrag Hp Hin Hfm Hnp.
  rewrite (planner_after_oracle _ _ _ _ _ Hrag Hp). cbv zeta.
  destruct (decomposer_outcome_cases (reply ++ [newline; newline]))
    as [[_ Hall]|[-> _]].
  - by destruct (Hnp (Hall _ Hin Hfm)).
  - eexists. split; [reflexivity|]. by destruct (debug (cs_config (session w1))).
Qed.

(** A planning call that succeeds stores the decomposition of the oracle's
    text, two newlines appended, under [planned] and under
    [process['stages']]; the prompt, the configuration, the tables, the
    databases, the output and the log sink stay as the oracle left them. *)
Theorem planner_success_effect (w w1 : World) (h reply : str)
    (acct : Accounting) (processes : list Stage) :
  cs_databases (session w) !! lit "RAG" = Some h ->
  predict plannerTemplate SessionMemory (cs_prompt (session w)) w
  = Done (reply, acct) w1 ->
  response2processes (reply ++ [newline; newline]) = Ok processes ->
  exists w',
    planner w = Done (session w') w'
    /\ session w'
       = mkChatStatus (cs_prompt (session w1)) (cs_llm (session w1))
           (cs_memory (session w1)) (cs_config (session w1))
           (cs_tables (session w1)) (cs_databases (session w1))
           (<[lit "type" := PStr (lit "PLANNER")]>
              {[lit "stages" := PList (map EStage processes)]})
           processes (cs_output (session w1))
    /\ sink w' = sink w1.
Proof.
  intros Hrag Hp Hr.
  rewrite (planner_after_oracle _ _ _ _ _ Hrag Hp). cbv zeta. rewrite Hr.
  eexists (mkWorld _ _ _). split; [reflexivity|].
  split; [reflexivity|]. by destruct (debug (cs_config (session w1))).
Qed.

End Turn.

Lemma planner_needs_rag_witness :
  planner (H := Scenario.collaborators) Cases.world_without_rag
  = Fail (mkExc KeyError (lit "'RAG'")) Cases.world_without_rag.
Proof.
  apply (planner_needs_rag (H := Scenario.collaborators)). reflexivity.
Defined.

Lemma planner_failure_leaves_session_witness :
  exists w',
    planner (H := Cases.promptless_collaborators) Scenario.world
    = Fail index_error w'
    /\ session w' = session Scenario.world
    /\ sink w' = sink Scenario.world.
Proof.
  apply (planner_failure_leaves_session (H := Cases.promptless_collaborators)
           Scenario.world Scenario.world (lit "vectordb")
           (lit "**Step 1** use RAG to look up the genes")
           (lit "1** use RAG to look up the genes" ++ [newline; newline])
           Scenario.no_accounting).
  - vm_compute. reflexivity.
  - reflexivity.
  - apply list_elem_of_In. vm_compute. right. by left.
  - vm_compute. discriminate.
  - rewrite prompt_line_findall. vm_compute. intros Hn. by apply Hn.
Defined.

Lemma planner_success_effect_witness :
  exists w',
    planner (H := Scenario.collaborators) Scenario.world = Done (session w') w'
    /\ session w'
       = mkChatStatus (cs_prompt Scenario.chatstatus) (cs_llm Scenario.chatstatus)
           (cs_memory Scenario.chatstatus) (cs_config Scenario.chatstatus)
           (cs_tables Scenario.chatstatus) (cs_databases Scenario.chatstatus)
           (<[lit "type" := PStr (lit "PLANNER")]>
              {[lit "stages" :=
                  PList (map EStage
                    [ mkStage 1 (lit "RAG") (lit "/force RAG find genes")
                        (lit "0** ... RAG ... Prompt: find genes"
                           ++ [newline; newline]);
                      mkStage 2 (lit "WRITE") (lit "/force WRITE summarize")
                        (lit "1** ... WRITE ... Prompt: summarize"
                           ++ [newline; newline]) ])]})
           [ mkStage 1 (lit "RAG") (lit "/force RAG find genes")
               (lit "0** ... RAG ... Prompt: find genes" ++ [newline; newline]);
             mkStage 2 (lit "WRITE") (lit "/force WRITE summarize")
               (lit "1** ... WRITE ... Prompt: summarize" ++ [newline; newline]) ]
           (cs_output Scenario.chatstatus)
    /\ sink w' = sink Scenario.world.
Proof.
  apply (planner_success_effect (H := Scenario.collaborators)
           Scenario.world Scenario.world (lit "vectordb")
           (lit "**Step 0** ... RAG ... Prompt: find genes"
              ++ [newline; newline]
              ++ lit "**Step 1** ... WRITE ... Prompt: summarize")
           Scenario.no_accounting).
  - vm_compute. reflexivity.
  - reflexivity.
  - vm_compute. reflexivity.
Defined.

End PlannerTurnFacts.

(** ** More on the Dispatcher's turn *)

Module DispatcherTurnFacts.
Import Py Session Planner GeneDatabaseCaller PyFacts ParserFacts DispatcherFacts
       PlannerTurnFacts.

Section Turn.
Context `{Collaborators}.

Lemma debugLog_keeps (x : DebugPayload) (w : World) :
  exists w', debugLog x w = Done tt w'
             /\ session w' = session w /\ stdout w' = stdout w.
Proof.
  unfold debugLog. destruct (debug (cs_config (session w))); eauto.
Qed.

(** The dispatcher up to the end of parsing, once the oracle has answered:
    only debug dumps have been written. *)
Lemma dispatch_until_parsed (w w1 : World) (response : str) (acct : Accounting) :
  predict (PROMPT_of w) FreshMemory (cs_prompt (session w)) w
  = Done (response, acct) w1 ->
  exists w3,
    session w3 = session w1 /\ stdout w3 = stdout w1
    /\ route_and_terms w
       = match parse_lines (split (strip (dequote response)) [newline]) with
         | Raise e => Fail e w3
         | Ok parsed =>
             (process_append (lit "steps")
                (ECall (llmCallLog (cs_llm (session w)) (PROMPT_of w)
                          (cs_prompt (session w))
                          (mkDetails response (elapsed acct) acct)
                          parsed (lit "Select database"))) >>
              debugLog (DParsed parsed) >>
              let! dbCaller :=
                database_functions_getitem (select_database (database parsed)) in
              process_setitem (lit "database-function") (PFunc dbCaller) >>
              let! geneList :=
                (if decide (load parsed = lit "True")
                 then loadFromFile
                 else ret (genes parsed)) in
              let! chatstatus := get_session in
              let geneList :=
                truncate_terms geneList (max_search_terms (cs_config chatstatus)) in
              debugLog (DList geneList) >>
              ret (dbCaller, geneList))%turn w3
         end.
Proof.
  intros Hp. unfold PROMPT_of in *. unfold route_and_terms.
  unfold bind at 1. cbn [get_session].
  unfold bind at 1. rewrite Hp. cbn [fst snd].
  unfold bind at 1.
  destruct (debugLog_keeps (DText response) w1) as (w2 & -> & Hs2 & Ho2).
  unfold bind at 1.
  pose proof (parse_llm_response_value response w2) as Hv.
  pose proof (parse_llm_response_world response w2) as Hw.
  destruct (debugLog_keeps (DText (dequote response)) w2) as (w3 & Hd3 & Hs3 & Ho3).
  rewrite Hd3 in Hw. cbn [world_of] in Hw.
  exists w3. split; [congruence|]. split; [congruence|].
  destruct (parse_llm_response response w2) as [parsed w3'|e w3'];
    cbn [value_of world_of] in *; subst w3'; rewrite <- Hv; reflexivity.
Qed.

(** The lookup in the dispatch table cannot fail: whatever the parsed
    database text, the matcher yields one of the two keys, and every text
    that does not score strictly higher against ["ENRICHR"] is routed to
    the Gene Ontology handler. *)
Theorem dispatch_lookup_total (parsed_database : str) :
  database_functions_getitem (select_database parsed_database)
  = ret (if score_gt (word_similarity parsed_database (lit "ENRICHR"))
                     (word_similarity parsed_database (lit "GENEONTOLOGY"))
         then queryEnrichr_fn
         else geneOntology_fn).
Proof.
  unfold select_database, database_functions_getitem.
  by destruct (score_gt _ _).
Qed.

Lemma missing_steps_aux (w w1 : World) (response : str) (acct : Accounting) :
  predict (PROMPT_of w) FreshMemory (cs_prompt (session w)) w
  = Done (response, acct) w1 ->
  (3 <= length (split (strip (dequote response)) [newline]))%nat ->
  cs_process (session w1) !! lit "steps" = None ->
  exists w',
    geneDBRetriever w = Fail (mkExc KeyError (lit "'steps'")) w'
    /\ session w' = session w1
    /\ stdout w' = stdout w1.
Proof.
  intros Hp Hlen Hnone.
  destruct (dispatch_until_parsed _ _ _ _ Hp) as (w3 & Hs & Ho & Hr).
  exists w3. split; [|done]. unfold geneDBRetriever. unfold bind at 1.
  rewrite Hr.
  destruct (split (strip (dequote response)) [newline])
    as [|l0 [|l1 [|l2 rest]]]; simpl in Hlen; try lia.
  rewrite parse_lines_three. unfold bind at 1. unfold process_append.
  by rewrite Hs, Hnone.
Qed.

(** The dispatcher needs the key ['steps'] in [process]: without it the
    turn ends in [KeyError] right after parsing; no route is chosen,
    [process] and the rest of the session stay as the oracle left them. *)
Theorem missing_steps_key (w w1 : World) (response : str) (acct : Accounting) :
  predict (PROMPT_of w) FreshMemory (cs_prompt (session w)) w
  = Done (response, acct) w1 ->
  (3 <= length (split (strip (dequote response)) [newline]))%nat ->
  cs_process (session w1) !! lit "steps" = None ->
  exists w',
    geneDBRetriever w = Fail (mkExc KeyError (lit "'steps'")) w'
    /\ session w' = session w1
    /\ stdout w' = stdout w1.
Proof. apply missing_steps_aux. Qed.

(** A malformed reply leaves no trace in the session: when the parser
    raises for want of lines, no step has been appended and no route
    recorded; the session is as the oracle left it. *)
Theorem malformed_reply_leaves_session (w w1 : World) (response : str)
    (acct : Accounting) :
  predict (PROMPT_of w) FreshMemory (cs_prompt (session w)) w
  = Done (response, acct) w1 ->
  (length (split (strip (dequote response)) [newline]) < 3)%nat ->
  exists w',
    geneDBRetriever w = Fail index_error w'
    /\ session w' = session w1
    /\ stdout w' = stdout w1.
Proof.
  intros Hp Hlen.
  destruct (dispatch_until_parsed _ _ _ _ Hp) as (w3 & Hs & Ho & Hr).
  exists w3. split; [|done]. unfold geneDBRetriever. unfold bind at 1.
  by rewrite Hr, parse_lines_short.
Qed.

(** After a planning call the dispatcher cannot run on the same session:
    the planner has replaced [process] by a mapping without ['steps'], so
    the next routing turn, its oracle leaving [process] alone and answering
    with three lines or more, ends in [KeyError]. *)
Theorem planner_then_dispatcher (w w' w1 : World) (cs : ChatStatus)
    (response : str) (acct : Accounting) :
  planner w = Done cs w' ->
  predict (PROMPT_of w') FreshMemory (cs_prompt (session w')) w'
  = Done (response, acct) w1 ->
  cs_process (session w1) = cs_process (session w') ->
  (3 <= length (split (strip (dequote response)) [newline]))%nat ->
  value_of (geneDBRetriever w') = Raise (mkExc KeyError (lit "'steps'")).
Proof.
  intros Hplan Hp Hsame Hlen.
  assert (cs_process (session w') !! lit "steps" = None) as Hnone.
  { destruct (cs_databases (session w) !! lit "RAG") as [h|] eqn:Hrag.
    2:{ unfold planner, bind, databases_getitem in Hplan.
        cbn [get_session] in Hplan. by rewrite Hrag in Hplan. }
    destruct (predict plannerTemplate SessionMemory (cs_prompt (session w)) w)
      as [[reply a] wa|e wa] eqn:Hpl.
    2:{ unfold planner, bind, databases_getitem in Hplan.
        cbn [get_session] in Hplan. by rewrite Hrag, Hpl in Hplan. }
    rewrite (planner_after_oracle _ _ _ _ _ Hrag Hpl) in Hplan.
    cbv zeta in Hplan.
    destruct (response2processes _); [|done].
    injection Hplan as _ <-. cbn [session cs_process set_process].
    rewrite lookup_insert_ne by (by intros [=]).
    apply lookup_singleton_ne. by intros [=]. }
  rewrite <- Hsame in Hnone.
  destruct (missing_steps_aux _ _ _ _ Hp Hlen Hnone) as (wf & -> & _). done.
Qed.

(** What derives from [BaseException] only is not caught: an interrupt
    raised inside the handler leaves the dispatcher as it is, and no error
    entry is written. *)
Theorem interrupt_escapes (w w1 w2 : World) (dbCaller : callable)
    (geneList : list str) (e : exc) :
  route_and_terms w = Done (dbCaller, geneList) w1 ->
  call dbCaller geneList w1 = Fail e w2 ->
  is_Exception e = false ->
  geneDBRetriever w = Fail e w2.
Proof.
  intros Hprep Hcall Hexc.
  unfold geneDBRetriever, bind. rewrite Hprep. cbn [fst snd].
  unfold call_guarded, bind, try_except. by rewrite Hcall, Hexc.
Qed.

(** A turn whose handler fails still leaves its bookkeeping behind: the
    oracle, the file loader and the failing handler leaving [process]
    alone, the returned session has the entry of the oracle call appended
    to [process['steps']] and the chosen handler under
    ['database-function']. *)
Theorem failed_turn_keeps_step (w w1 w2 : World) (dbCaller : callable)
    (geneList : list str) (e : exc) :
  (forall t m q w r w', predict t m q w = Done r w' ->
     cs_process (session w') = cs_process (session w)) ->
  (forall w r w', loadFromFile w = Done r w' ->
     cs_process (session w') = cs_process (session w)) ->
  route_and_terms w = Done (dbCaller, geneList) w1 ->
  call dbCaller geneList w1 = Fail e w2 ->
  is_Exception e = true ->
  cs_process (session w2) = cs_process (session w1) ->
  exists cs w' steps entry,
    geneDBRetriever w = Done cs w'
    /\ cs_process (session w) !! lit "steps" = Some (PList steps)
    /\ log_purpose entry = lit "Select database"
    /\ cs_process cs
       = <[lit "database-function" := PFunc dbCaller]>
           (<[lit "steps" := PList (steps ++ [ECall entry])]>
              (cs_process (session w))).
Proof.
  intros Hpredict Hloader Hprep Hcall Hexc Hkeep.
  destruct (route_and_terms_inv _ _ _ _ Hprep)
    as (reply & wa & response & steps & wb & original & wc
        & Hp & _ & Hsteps & _ & Hwb & Hload & Hs & _).
  apply Hpredict in Hp. rewrite Hp in *.
  exists (session w2). eexists. exists steps.
  eexists (llmCallLog _ _ _ _ _ (lit "Select database")).
  split.
  { unfold geneDBRetriever, bind. rewrite Hprep. cbn [fst snd].
    unfold call_guarded, bind, try_except. rewrite Hcall, Hexc. reflexivity. }
  split; [done|]. split; [reflexivity|].
  rewrite Hkeep, Hs.
  destruct Hload as [(_ & Hl)|(_ & _ & ->)].
  - apply Hloader in Hl. rewrite Hl, Hwb. done.
  - rewrite Hwb. done.
Qed.

End Turn.

(** The cut to [max_search_terms] for any configured integer: a prefix of
    the list in every case; a negative value does not mean no limit but
    drops that many entries from the end. *)
Theorem truncate_terms_any_max (geneList : list str) (max_search_terms : Z) :
  truncate_terms geneList max_search_terms
  = take (if (0 <=? max_search_terms)%Z
          then Z.to_nat max_search_terms
          else (length geneList - Z.to_nat (- max_search_terms))%nat)
         geneList
  /\ truncate_terms geneList max_search_terms `prefix_of` geneList.
Proof.
  assert (truncate_terms geneList max_search_terms
          = take (if (0 <=? max_search_terms)%Z
                  then Z.to_nat max_search_terms
                  else (length geneList - Z.to_nat (- max_search_terms))%nat)
                 geneList) as E.
  { unfold truncate_terms, slice_to.
    destruct (Z.ltb_spec max_search_terms (Z.of_nat (length geneList)));
      destruct (Z.leb_spec 0 max_search_terms); try done; try lia.
    by rewrite take_ge by lia. }
  split; [done|]. rewrite E. apply prefix_take.
Qed.

Section Tables.
Context `{Collaborators}.

Lemma getTablesFormatting_from (tables : list (str * list str)) (acc : str) :
  fold_left
    (fun tablesString (entry : str * list str) =>
       tablesString ++ entry.1 ++ lit ".columns = "
         ++ str_of_list
              (if (10 <? length entry.2)%nat
               then take 10 entry.2 ++ [lit "..."]
               else take 10 entry.2)
         ++ [newline])
    tables acc
  = acc ++ getTablesFormatting tables.
Proof.
  unfold getTablesFormatting. revert acc.
  induction tables as [|entry tables IH]; intros acc.
  - simpl. by rewrite app_nil_r.
  - cbn [fold_left]. rewrite IH. rewrite (IH ([] ++ _)).
    by rewrite <- !app_assoc.
Qed.

(** The table context is built table by table, in order, and shows a
    table with at most ten columns in full; beyond ten it shows the first
    ten and an ellipsis. *)
Theorem tables_formatting (tab : str) (columns : list str)
    (tables1 tables2 : list (str * list str)) :
  getTablesFormatting [] = []
  /\ getTablesFormatting (tables1 ++ tables2)
     = getTablesFormatting tables1 ++ getTablesFormatting tables2
  /\ getTablesFormatting [(tab, columns)]
     = tab ++ lit ".columns = "
         ++ str_of_list (if (length columns <=? 10)%nat
                         then columns
                         else take 10 columns ++ [lit "..."])
         ++ [newline].
Proof.
  split_and!.
  - done.
  - unfold getTablesFormatting at 1. rewrite fold_left_app.
    apply getTablesFormatting_from.
  - unfold getTablesFormatting. cbn [fold_left fst snd app].
    destruct (Nat.ltb_spec 10 (length columns));
      destruct (Nat.leb_spec (length columns) 10); try lia; [done|].
    by rewrite take_ge by lia.
Qed.

End Tables.

Lemma missing_steps_key_witness :
  exists w',
    geneDBRetriever (H := Scenario.collaborators) Cases.world_after_planner
    = Fail (mkExc KeyError (lit "'steps'")) w'
    /\ session w' = session Cases.world_after_planner
    /\ stdout w' = stdout Cases.world_after_planner.
Proof.
  apply (missing_steps_key (H := Scenario.collaborators)
           Cases.world_after_planner Cases.world_after_planner
           enrichr_reply Scenario.no_accounting).
  - reflexivity.
  - vm_compute. lia.
  - vm_compute. reflexivity.
Defined.

Lemma malformed_reply_leaves_session_witness :
  exists w',
    geneDBRetriever (H := Scenario.terse_collaborators) Scenario.world
    = Fail index_error w'
    /\ session w' = session Scenario.world
    /\ stdout w' = stdout Scenario.world.
Proof.
  apply (malformed_reply_leaves_session (H := Scenario.terse_collaborators)
           Scenario.world Scenario.world Scenario.one_line_reply
           Scenario.no_accounting).
  - reflexivity.
  - vm_compute. lia.
Defined.

Lemma planner_then_dispatcher_witness :
  value_of (geneDBRetriever (H := Scenario.collaborators) Cases.world_after_planner)
  = Raise (mkExc KeyError (lit "'steps'")).
Proof.
  apply (planner_then_dispatcher (H := Scenario.collaborators)
           Scenario.world Cases.world_after_planner Cases.world_after_planner
           (session Cases.world_after_planner) enrichr_reply
           Scenario.no_accounting).
  - vm_compute. reflexivity.
  - reflexivity.
  - reflexivity.
  - vm_compute. lia.
Defined.

Lemma interrupt_escapes_witness :
  exists w2,
    geneDBRetriever (H := Cases.interrupted_collaborators) Scenario.world
    = Fail Cases.interrupt w2.
Proof.
  eexists.
  eapply (interrupt_escapes (H := Cases.interrupted_collaborators)
            Scenario.world _ _ queryEnrichr_fn [lit "TP53"; lit "BRCA1"]
            Cases.interrupt).
  - vm_compute. reflexivity.
  - vm_compute. reflexivity.
  - reflexivity.
Defined.

Lemma failed_turn_keeps_step_witness :
  exists cs w' steps entry,
    geneDBRetriever (H := Scenario.collaborators) Scenario.world = Done cs w'
    /\ cs_process (session Scenario.world) !! lit "steps" = Some (PList steps)
    /\ log_purpose entry = lit "Select database"
    /\ cs_process cs
       = <[lit "database-function" := PFunc queryEnrichr_fn]>
           (<[lit "steps" := PList (steps ++ [ECall entry])]>
              (cs_process (session Scenario.world))).
Proof.
  assert (forall t m q w r w',
            predict (Collaborators := Scenario.collaborators) t m q w = Done r w' ->
            cs_process (session w') = cs_process (session w)) as Hpredict.
  { intros t m q w r w' Hp. destruct m; cbn in Hp; by injection Hp as _ <-. }
  assert (forall w r w',
            loadFromFile (Collaborators := Scenario.collaborators) w = Done r w' ->
            cs_process (session w') = cs_process (session w)) as Hloader.
  { intros w r w' Hl. cbn in Hl. by injection Hl as _ <-. }
  eapply (failed_turn_keeps_step (H := Scenario.collaborators)
            Scenario.world _ _ queryEnrichr_fn [lit "TP53"; lit "BRCA1"]
            Scenario.timeout Hpredict Hloader).
  - vm_compute. reflexivity.
  - vm_compute. reflexivity.
  - reflexivity.
  - reflexivity.
Defined.

End DispatcherTurnFacts.

(** ** The helpers of [rag.py] *)

Module RagFacts.
Import Py Rag.

Lemma similarity_loop_spec {D S : Type} (documents : list (D * S))
    (docs : list D) (scores : list S) :
  similarity_loop documents docs scores
  = (docs ++ documents.*1, scores ++ documents.*2).
Proof.
  revert docs scores. induction documents as [|doc rest IH]; intros docs scores.
  - simpl. by rewrite !app_nil_r.
  - cbn [similarity_loop]. rewrite IH. cbn [fmap list_fmap].
    by rewrite <- !app_assoc.
Qed.

(** [getDocumentSimilarity] returns the documents of the pairs in the
    order of the input, as many as there are pairs, and the array numpy
    builds from the scores of the pairs in the same order. *)
Theorem document_similarity_unzips {D S A : Type} (np_array : list S -> A)
    (documents : list (D * S)) :
  getDocumentSimilarity np_array documents
  = (documents.*1, np_array documents.*2)
  /\ length (fst (getDocumentSimilarity np_array documents)) = length documents
  /\ forall i doc,
       fst (getDocumentSimilarity np_array documents) !! i = Some doc
       <-> exists score, documents !! i = Some (doc, score).
Proof.
  unfold getDocumentSimilarity. rewrite similarity_loop_spec. cbn [app fst snd].
  split_and!; [done|by rewrite length_fmap|].
  intros i doc. rewrite list_lookup_fmap. split.
  - destruct (documents !! i) as [[d score]|]; [|done].
    cbn. intros [= ->]. by exists score.
  - intros [score ->]. done.
Qed.

Lemma documents_loop_ok (i : nat) (docs : list Document)
    (acc : gmap nat DocumentJSON) :
  Forall (fun doc => is_Some (document_json doc)) docs ->
  (forall j, (i <= j)%nat -> acc !! j = None) ->
  exists m,
    documents_loop i docs acc = Ok m
    /\ (forall j, (j < i)%nat -> m !! j = acc !! j)
    /\ (forall j, m !! (i + j)%nat = docs !! j ≫= document_json).
Proof.
  revert i acc. induction docs as [|doc docs IH]; intros i acc Hall Hfresh.
  - exists acc. split_and!; [done|done|].
    intros j. rewrite Hfresh by lia. done.
  - apply Forall_cons in Hall as [[json Hjson] Hall].
    unfold document_json in Hjson. cbn [documents_loop].
    destruct (metadata doc !! lit "source") as [source|] eqn:Hsrc; [|done].
    injection Hjson as <-.
    destruct (IH (S i) (<[i := mkDocumentJSON (page_content doc) source]> acc) Hall)
      as (m & Hm & Hold & Hnew).
    { intros j Hj. rewrite lookup_insert_ne by lia. apply Hfresh. lia. }
    exists m. split_and!; [done| |].
    + intros j Hj. rewrite Hold by lia. rewrite lookup_insert_ne by lia. done.
    + intros [|j].
      * rewrite Nat.add_0_r, Hold by lia. rewrite lookup_insert_eq.
        cbn. unfold document_json. by rewrite Hsrc.
      * replace (i + S j)%nat with (S i + j)%nat by lia. by rewrite Hnew.
Qed.

Lemma documents_loop_fail (i : nat) (docs : list Document)
    (acc : gmap nat DocumentJSON) :
  Exists (fun doc => document_json doc = None) docs ->
  documents_loop i docs acc = Raise (mkExc KeyError (lit "'source'")).
Proof.
  revert i acc. induction docs as [|doc docs IH]; intros i acc Hex.
  - by apply Exists_nil in Hex.
  - cbn [documents_loop]. unfold document_json in *.
    destruct (metadata doc !! lit "source") as [source|] eqn:Hsrc; [|done].
    apply IH. apply Exists_cons in Hex as [Hdoc|Hex]; [|done].
    by rewrite Hsrc in Hdoc.
Qed.

(** [getInputDocumentJSONs] either maps every index [i] below the number
    of documents, and no other, to the text and the source of document [i]
    (every other metadata entry is dropped), or, when some document has no
    ['source'] in its metadata, raises [KeyError] and returns nothing. *)
Theorem input_document_jsons (input_documents : list Document) :
  (Forall (fun doc => is_Some (metadata doc !! lit "source")) input_documents
   /\ exists m,
        getInputDocumentJSONs input_documents = Ok m
        /\ forall i,
             m !! i
             = input_documents !! i ≫= (fun doc =>
                 mkDocumentJSON (page_content doc)
                   <$> metadata doc !! lit "source"))
  \/ (Exists (fun doc => metadata doc !! lit "source" = None) input_documents
      /\ getInputDocumentJSONs input_documents
         = Raise (mkExc KeyError (lit "'source'"))).
Proof.
  destruct (decide (Forall (fun doc => is_Some (metadata doc !! lit "source"))
                      input_documents)) as [Hall|Hnot].
  - left. split; [done|].
    destruct (documents_loop_ok 0 input_documents ∅) as (m & Hm & _ & Hnew).
    + eapply Forall_impl; [exact Hall|]. intros doc [s Hs].
      unfold document_json. rewrite Hs. by eexists.
    + intros j _. apply lookup_empty.
    + exists m. split; [done|]. intros i. exact (Hnew i).
  - right. apply not_Forall_Exists in Hnot; [|apply _].
    assert (Exists (fun doc => metadata doc !! lit "source" = None) input_documents)
      as Hex.
    { eapply Exists_impl; [exact Hnot|]. intros doc Hdoc. unfold compose in Hdoc.
      destruct (metadata doc !! lit "source") as [s|] eqn:E; [|done].
      exfalso. apply Hdoc. by exists s. }
    split; [done|]. apply documents_loop_fail.
    eapply Exists_impl; [exact Hex|]. intros doc Hdoc.
    unfold document_json. by rewrite Hdoc.
Qed.

Section PreviousInput.
Variable int : str -> option Z.

(** On a log shaped as the docstring says, every turn holding the keys
    ['prompt'] and ['output'] only, [getPreviousInput] returns for no key:
    the field it looks up is the last character of the key, which is
    neither of the two. *)
Theorem previous_input_on_documented_log
    (log : gmap Z (gmap str LogValue)) (key : str) :
  (forall n turn field,
     log !! n = Some turn -> is_Some (turn !! field) ->
     field = lit "prompt" \/ field = lit "output") ->
  exists e, getPreviousInput int log key = inl e.
Proof.
  intros Hshape. unfold getPreviousInput.
  destruct (last key) as [c|]; [|by eexists].
  destruct (int (slice_to key (-1))) as [n|]; [|by eexists].
  destruct (log !! n) as [turn|] eqn:Hturn; [|by eexists].
  destruct (turn !! [c]) as [v|] eqn:Hfield; [|by eexists].
  destruct (Hshape n turn [c] Hturn) as [Hc|Hc]; [by eexists|..];
    by apply (f_equal length) in Hc.
Qed.

End PreviousInput.

Lemma previous_input_on_documented_log_witness :
  exists e,
    getPreviousInput int_of_digits documented_log (lit "1I") = inl e.
Proof.
  apply (previous_input_on_documented_log int_of_digits documented_log).
  intros n turn field Hturn [v Hv]. unfold documented_log in Hturn.
  destruct (decide (n = 1%Z)) as [->|Hn1].
  - rewrite lookup_insert_eq in Hturn. injection Hturn as <-.
    destruct (decide (field = lit "prompt")) as [|Hp]; [by left|right].
    rewrite lookup_insert_ne in Hv by done.
    destruct (decide (field = lit "output")) as [|Ho]; [done|].
    by rewrite lookup_singleton_ne in Hv.
  - rewrite lookup_insert_ne in Hturn by done.
    destruct (decide (n = 2%Z)) as [->|Hn2].
    + rewrite lookup_singleton_eq in Hturn. injection Hturn as <-.
      destruct (decide (field = lit "prompt")) as [|Hp]; [by left|right].
      rewrite lookup_insert_ne in Hv by done.
      destruct (decide (field = lit "output")) as [|Ho]; [done|].
      by rewrite lookup_singleton_ne in Hv.
    + by rewrite lookup_singleton_ne in Hturn.
Defined.

End RagFacts.

(** ** The helpers and the session-removal endpoint of [app.py] *)

Module AppFacts.
Import Py PyFacts App.

Lemma break_at_none (c : char) (s : str) : break_at c s = None <-> lacks c s.
Proof.
  unfold lacks. induction s as [|x s IH]; simpl.
  - split; [intros _; apply not_elem_of_nil|done].
  - destruct (N.eqb_spec x c) as [->|Hne].
    + split; [done|]. intros Hn. exfalso. apply Hn. by left.
    + rewrite not_elem_of_cons. destruct (break_at c s) as [[a b]|].
      * split; [done|]. intros [_ Hs]. by apply IH in Hs.
      * split; [|done]. intros _. split; [congruence|by apply IH].
Qed.

Lemma break_at_some (c : char) (s a b : str) :
  break_at c s = Some (a, b) -> s = a ++ c :: b /\ lacks c a.
Proof.
  unfold lacks. revert a. induction s as [|x s IH]; intros a; simpl; [done|].
  destruct (N.eqb_spec x c) as [->|Hne].
  - intros [= <- <-]. split; [done|apply not_elem_of_nil].
  - destruct (break_at c s) as [[a' b']|]; [|done].
    intros [= <- <-]. destruct (IH _ eq_refl) as [-> Ha].
    split; [done|]. apply not_elem_of_cons. split; [congruence|done].
Qed.

Lemma contains_char (c : char) (s : str) :
  contains [c] s = true <-> c ∈ s.
Proof.
  induction s as [|x s IH]; simpl.
  - split; [done|]. intros Hin. by apply elem_of_nil in Hin.
  - rewrite andb_true_r, orb_true_iff, IH, elem_of_cons.
    destruct (N.eqb_spec c x) as [->|Hne]; [tauto|].
    split; [intros [?|?]; [done|by right]|intros [?|?]; [done|by right]].
Qed.

Lemma lacks_rev (c : char) (s : str) : lacks c (rev s) <-> lacks c s.
Proof. unfold lacks. rewrite !list_elem_of_In. by rewrite <- in_rev. Qed.

(** The one cut of [rsplit] is at the last dot. *)
Lemma rsplit1_cut (stem ext : str) (c : char) :
  lacks c ext -> rsplit1 (stem ++ c :: ext) c = [stem; ext].
Proof.
  intros Hext. unfold rsplit1.
  assert (break_at c (rev (stem ++ c :: ext)) = Some (rev ext, rev stem)) as ->.
  { rewrite rev_app_distr. cbn [rev]. rewrite <- app_assoc. cbn [app].
    assert (lacks c (rev ext)) as Hr by (by apply lacks_rev).
    clear Hext. induction (rev ext) as [|x r IH]; simpl.
    - by rewrite N.eqb_refl.
    - apply not_elem_of_cons in Hr as [Hx Hr].
      destruct (N.eqb_spec x c); [congruence|]. by rewrite IH. }
  by rewrite !rev_involutive.
Qed.

Lemma rsplit1_none (s : str) (c : char) : lacks c s -> rsplit1 s c = [s].
Proof.
  intros Hs. unfold rsplit1.
  assert (break_at c (rev s) = None) as ->; [|done].
  by apply break_at_none, lacks_rev.
Qed.

(** Every text either lacks [c] or splits at its last [c]. *)
Lemma last_cut (c : char) (s : str) :
  lacks c s \/ exists stem ext, s = stem ++ c :: ext /\ lacks c ext.
Proof.
  destruct (break_at c (rev s)) as [[a b]|] eqn:E.
  - right. apply break_at_some in E as [Hs Ha].
    exists (rev b), (rev a). split.
    + rewrite <- (rev_involutive s), Hs, rev_app_distr. cbn [rev].
      by rewrite <- app_assoc.
    + by apply lacks_rev.
  - left. apply break_at_none in E. by apply lacks_rev.
Qed.

Section AllowedFile.
Variable lower : str -> str.

Lemma allowed_file_cases (filename : str) :
  (lacks dot filename /\ allowed_file lower filename = Ok false)
  \/ (exists stem extension,
        filename = stem ++ dot :: extension
        /\ lacks dot extension
        /\ allowed_file lower filename
           = Ok (bool_decide (lower extension ∈ ALLOWED_EXTENSIONS))).
Proof.
  unfold allowed_file.
  destruct (last_cut dot filename) as [Hno|(stem & ext & -> & Hext)].
  - left. split; [done|].
    destruct (contains [dot] filename) eqn:E; [|done].
    apply contains_char in E. by destruct Hno.
  - right. exists stem, ext. split_and!; [done..|].
    assert (contains [dot] (stem ++ dot :: ext) = true) as ->.
    { apply contains_char. apply elem_of_app. right. by left. }
    by rewrite rsplit1_cut.
Qed.

(** [allowed_file] never raises and judges a name by what follows its last
    dot alone, lowered: a name without a dot is refused, whatever precedes
    the last dot is irrelevant (so a hidden file such as [.txt] passes and
    [x.pdf.exe] does not), and an upper-case extension counts as its
    lower-case form. *)
Theorem allowed_file_decides (filename : str) :
  (lacks dot filename /\ allowed_file lower filename = Ok false)
  \/ (exists stem extension,
        filename = stem ++ dot :: extension
        /\ lacks dot extension
        /\ allowed_file lower filename
           = Ok (bool_decide (lower extension ∈ ALLOWED_EXTENSIONS))).
Proof. apply allowed_file_cases. Qed.

End AllowedFile.

Lemma display_loop_spec {Q L : Type} (todo i : nat)
    (chat_history : list (Q * option (Shown L))) :
  (i + todo)%nat = length chat_history ->
  display_loop todo i chat_history
  = take i chat_history ++ map shown_with_stages (drop i chat_history).
Proof.
  revert i chat_history. induction todo as [|todo IH]; intros i h Hlen.
  - cbn [display_loop]. rewrite drop_ge by lia. rewrite take_ge by lia.
    by rewrite app_nil_r.
  - cbn [display_loop].
    destruct (h !! i) as [[q r]|] eqn:Hi.
    2:{ apply lookup_ge_None in Hi. lia. }
    rewrite (drop_S _ _ _ Hi). cbn [map].
    destruct r as [shown|].
    + rewrite IH by (rewrite length_insert; lia).
      rewrite take_S_r with (x := (q, Some (Stages passed_log_stages)))
        by (apply list_lookup_insert_eq; apply lookup_lt_Some in Hi; lia).
      rewrite take_insert_ge by lia. rewrite drop_insert_lt by lia.
      by rewrite <- app_assoc.
    + rewrite IH by lia.
      rewrite (take_S_r _ _ _ Hi). by rewrite <- app_assoc.
Qed.

(** [parse_log_for_process_display] keeps the number and the order of the
    turns and their first components; a turn without a log stays without
    one, every other turn shows the fixed stages instead of its log; a
    second pass changes nothing. *)
Theorem process_display {Q L : Type} (chat_history : list (Q * option (Shown L))) :
  parse_log_for_process_display chat_history
  = map (fun turn => (turn.1, (fun _ => Stages passed_log_stages) <$> turn.2))
        chat_history
  /\ length (parse_log_for_process_display chat_history) = length chat_history
  /\ parse_log_for_process_display (parse_log_for_process_display chat_history)
     = parse_log_for_process_display chat_history.
Proof.
  assert (forall h : list (Q * option (Shown L)),
            parse_log_for_process_display h = map shown_with_stages h) as E.
  { intros h. unfold parse_log_for_process_display.
    rewrite display_loop_spec by lia. by rewrite take_0, drop_0. }
  split_and!.
  - apply E.
  - by rewrite E, length_map.
  - rewrite !E. rewrite map_map. apply map_ext.
    intros [q [shown|]]; reflexivity.
Qed.

(** The endpoint calls [shutil.rmtree] at most once, on the join of the
    log path and the session name, and only when the name is not empty, the
    log path is set and the joined path exists. *)
Theorem rmtree_only_when (host : Host)
    (PATH_TO_OUTPUT_DIRECTORIES session_name : option str) :
  rmtree_calls (remove_open_sessions host PATH_TO_OUTPUT_DIRECTORIES session_name).1
  = match session_name, PATH_TO_OUTPUT_DIRECTORIES with
    | Some (c :: name), Some (b :: base) =>
        if path_exists host (path_join (b :: base) (c :: name))
        then [path_join (b :: base) (c :: name)]
        else []
    | _, _ => []
    end.
Proof.
  destruct session_name as [[|c name]|]; [done| |done].
  destruct PATH_TO_OUTPUT_DIRECTORIES as [[|b base]|]; [done| |done].
  unfold remove_open_sessions.
  destruct (path_exists host (path_join (b :: base) (c :: name))); [|done].
  by destruct (rmtree host (path_join (b :: base) (c :: name))) as [[]|].
Qed.

(** The answer reports success exactly with status 200, which it gives
    exactly when [shutil.rmtree] was called and returned; every other
    status is one of 400, 403, 404 and 500. *)
Theorem removal_status (host : Host)
    (PATH_TO_OUTPUT_DIRECTORIES session_name : option str) :
  let run := remove_open_sessions host PATH_TO_OUTPUT_DIRECTORIES session_name in
  status run.2 ∈ [200; 400; 403; 404; 500]%nat
  /\ (success run.2 = true <-> status run.2 = 200%nat)
  /\ (status run.2 = 200%nat
      <-> exists path, rmtree_calls run.1 = [path] /\ rmtree host path = None).
Proof.
  destruct session_name as [[|c name]|];
    [|destruct PATH_TO_OUTPUT_DIRECTORIES as [[|b base]|]|];
    cbv zeta; unfold remove_open_sessions;
    try (split_and!; [set_solver|done|split; [done|by intros (? & ? & _)]]).
  destruct (path_exists host (path_join (b :: base) (c :: name)));
    cbn [negb]; cycle 1.
  { split_and!; [set_solver|done|split; [done|by intros (? & ? & _)]]. }
  destruct (rmtree host (path_join (b :: base) (c :: name))) as [[text|text|text]|] eqn:E;
    cbn [fst snd status success rmtree_calls omap list_omap].
  1-3: split_and!; [set_solver|done|];
       split; [done|]; intros (p & [= <-] & Hp); by rewrite E in Hp.
  split_and!; [set_solver|done|]. split; [|done]. intros _.
  by eexists.
Qed.

(** A session name that begins with a slash makes the log path
    irrelevant: the path tested and removed is the name itself, so a caller
    who names any existing, removable directory has it deleted. *)
Theorem absolute_name_is_removed (host : Host) (base name : str) :
  base <> [] ->
  startswith name [slash] = true ->
  path_exists host name = true ->
  rmtree host name = None ->
  remove_open_sessions host (Some base) (Some name)
  = ([ LogInfo (lit "Received request to remove session: " ++ name);
       Rmtree name;
       LogInfo (lit "Successfully removed session: " ++ name) ],
     mkResponse true (lit "Session '" ++ name ++ lit "' removed.") 200).
Proof.
  intros Hbase Habs Hexists Hrm.
  destruct name as [|c name]; [done|]. destruct base as [|b base]; [done|].
  unfold remove_open_sessions.
  assert (path_join (b :: base) (c :: name) = c :: name) as ->
    by (unfold path_join; by rewrite Habs).
  by rewrite Hexists, Hrm.
Qed.

Lemma absolute_name_is_removed_witness :
  remove_open_sessions host_with_etc (Some (lit "/usr/src/brad/logs"))
    (Some (lit "/etc"))
  = ([ LogInfo (lit "Received request to remove session: " ++ lit "/etc");
       Rmtree (lit "/etc");
       LogInfo (lit "Successfully removed session: " ++ lit "/etc") ],
     mkResponse true (lit "Session '" ++ lit "/etc" ++ lit "' removed.") 200).
Proof.
  apply (absolute_name_is_removed host_with_etc (lit "/usr/src/brad/logs")
           (lit "/etc")).
  - discriminate.
  - reflexivity.
  - reflexivity.
  - reflexivity.
Defined.

Section Upload.
Variable lower : str -> str.
Variable secure_filename : str -> str.
Variable host : UploadHost.
Hypothesis completes : forall effect, fails host effect = None.

Lemma verdict_nameless : verdict lower [] = Some (lit "no uploaded file").
Proof. done. Qed.

Lemma accepted_nameless : accepted lower [] = false.
Proof. done. Qed.

Lemma accepted_named (filename : str) :
  filename <> [] ->
  accepted lower filename
  = match allowed_file lower filename with Ok true => true | _ => false end.
Proof. intros Hn. unfold accepted. by rewrite bool_decide_true by done. Qed.

Lemma verdict_named (filename : str) :
  filename <> [] ->
  verdict lower filename
  = if accepted lower filename then Some (lit "File uploaded successfully")
    else None.
Proof. intros Hn. unfold verdict. by rewrite bool_decide_false by done. Qed.

Lemma upload_loop_spec (directory_with_time : str) (file_list : list str)
    (done : list UploadEffect) (response : option str) :
  upload_loop lower secure_filename host directory_with_time file_list done response
  = (done ++ map (fun filename =>
                    Save filename
                      (path_join directory_with_time (secure_filename filename)))
                 (List.filter (accepted lower) file_list),
     inr (match last (omap (verdict lower) file_list) with
          | Some message => Some message
          | None => response
          end)).
Proof.
  revert done response.
  induction file_list as [|filename rest IH]; intros done response.
  - cbn. by rewrite app_nil_r.
  - cbn [upload_loop List.filter omap list_omap].
    destruct (decide (filename = [])) as [->|Hname].
    + rewrite verdict_nameless, accepted_nameless.
      rewrite (bool_decide_true ([] = [])) by done.
      rewrite (bool_decide_false ([] <> [])) by (intros Hn; by apply Hn).
      rewrite IH. f_equal. rewrite last_cons. by destruct (last _).
    + rewrite verdict_named, accepted_named by done.
      rewrite (bool_decide_false (filename = [])) by done.
      rewrite (bool_decide_true (filename <> [])) by done.
      destruct (allowed_file_cases lower filename)
        as [[_ Ha]|(stem & ext & _ & _ & Ha)]; rewrite Ha; clear Ha.
      * by rewrite IH.
      * destruct (bool_decide (lower ext ∈ ALLOWED_EXTENSIONS)); [|by rewrite IH].
        unfold perform. rewrite completes. rewrite IH.
        cbn [map]. rewrite <- app_assoc. cbn [app]. f_equal.
        rewrite last_cons. by destruct (last _).
Qed.

Lemma upload_file_spec (file_list : list str) (timestr : str) :
  upload_file lower secure_filename host file_list timestr
  = (upload_effects lower secure_filename host file_list timestr,
     match last (omap (verdict lower) file_list) with
     | Some message => Answered message
     | None => ResponseUnbound
     end).
Proof.
  unfold upload_file, upload_effects, perform. cbv zeta.
  destruct (upload_path_exists host (path_join UPLOAD_FOLDER timestr));
    cbn [negb]; rewrite ?completes; cbv iota beta;
    rewrite upload_loop_spec; cbv iota beta; rewrite ?completes;
    destruct (last (omap (verdict lower) file_list));
    by rewrite <- ?app_assoc.
Qed.

(** On a host where every step completes, the upload saves exactly the
    files that have a name and an allowed extension, in order, each under
    the request's directory and its secured name, then builds the database;
    the answer is the message of the last file that was nameless or saved,
    so it says nothing of the files before it. *)
Theorem upload_saves_and_answers (file_list : list str) (timestr : str) :
  upload_file lower secure_filename host file_list timestr
  = (upload_effects lower secure_filename host file_list timestr,
     match last (omap (verdict lower) file_list) with
     | Some message => Answered message
     | None => ResponseUnbound
     end).
Proof. apply upload_file_spec. Qed.

(** When every uploaded file has a name and none has an allowed extension
    (in particular when no file is uploaded), the endpoint creates the
    directory and builds the database as usual and then, instead of
    answering, fails on its unassigned [response]. *)
Theorem upload_without_answer (file_list : list str) (timestr : str) :
  Forall (fun filename =>
            filename <> [] /\ allowed_file lower filename = Ok false) file_list ->
  upload_file lower secure_filename host file_list timestr
  = ((if upload_path_exists host (path_join UPLOAD_FOLDER timestr) then []
      else [MakeDirs (path_join UPLOAD_FOLDER timestr)])
     ++ [Printed (lit "File uploads done");
         Printed (lit "running database creation");
         CreateDatabase (path_join UPLOAD_FOLDER timestr) DATABASE_FOLDER],
     ResponseUnbound).
Proof.
  intros Hall. rewrite upload_file_spec. unfold upload_effects. cbv zeta.
  assert (List.filter (accepted lower) file_list = []
          /\ omap (verdict lower) file_list = []) as [-> ->].
  { induction Hall as [|filename rest [Hname Hrefused] _ [IH1 IH2]]; [done|].
    cbn [List.filter omap list_omap].
    rewrite verdict_named, accepted_named by done.
    by rewrite Hrefused, IH1, IH2. }
  done.
Qed.

End Upload.

Lemma upload_saves_and_answers_witness :
  upload_file ascii_lower (fun name => name) willing_host
    [lit "notes.txt"; []] (lit "20240101-000000")
  = ([ MakeDirs (lit "/usr/src/uploads/20240101-000000");
       Save (lit "notes.txt") (lit "/usr/src/uploads/20240101-000000/notes.txt");
       Printed (lit "File uploads done");
       Printed (lit "running database creation");
       CreateDatabase (lit "/usr/src/uploads/20240101-000000") DATABASE_FOLDER ],
     Answered (lit "no uploaded file")).
Proof.
  rewrite (upload_saves_and_answers ascii_lower (fun name => name) willing_host
             (fun _ => eq_refl)).
  vm_compute. reflexivity.
Defined.

Lemma upload_without_answer_witness :
  upload_file ascii_lower (fun name => name) willing_host
    [lit "setup.exe"] (lit "20240101-000000")
  = ([ MakeDirs (lit "/usr/src/uploads/20240101-000000");
       Printed (lit "File uploads done");
       Printed (lit "running database creation");
       CreateDatabase (lit "/usr/src/uploads/20240101-000000") DATABASE_FOLDER ],
     ResponseUnbound).
Proof.
  rewrite (upload_without_answer ascii_lower (fun name => name) willing_host
             (fun _ => eq_refl) [lit "setup.exe"] (lit "20240101-000000")).
  - vm_compute. reflexivity.
  - repeat constructor. discriminate.
Defined.

End AppFacts.
